(** * vtopapi: the CAPTCHA engine, the login orchestrator and the session cache

    A shallow embedding of [captchasolver.js] and of the session and login
    code of [app.js], followed by the properties of the written
    specification that concern them.

    Conventions of the embedding.
    - A JavaScript exception is the [None] of [option]; the code under
      study never inspects what was thrown.
    - An array is a [list]; reading past its end yields [undefined], and
      indexing [undefined] throws.
    - [await] is sequencing: the functions of one request run one after the
      other, and requests interleave only at an [await]. *)

From Stdlib Require Import ZArith List String Ascii Bool Lia.
From Stdlib Require Import Floats.
From stdpp Require Import gmap strings list.

Local Open Scope nat_scope.

(** ** JavaScript values *)

Module JS.

(** What an array of numbers holds at an index: a number, or [undefined]
    (an index past the end, or a hole). *)
Inductive jsval : Type :=
| JNum (n : Z)
| JUndef.

(** A two-dimensional array of numbers. *)
Abbreviation Grid := (list (list jsval)).

(** [r[y]] on an array. *)
Definition at_index (r : list jsval) (y : nat) : jsval :=
  default JUndef (r !! y).

(** [v === n] for a number literal [n]. *)
Definition strict_eq_num (v : jsval) (n : Z) : bool :=
  match v with
  | JNum m => (m =? n)%Z
  | JUndef => false
  end.

(** [a == b] on numbers and [undefined]. *)
Definition loose_eq (a b : jsval) : bool :=
  match a, b with
  | JNum m, JNum n => (m =? n)%Z
  | JUndef, JUndef => true
  | _, _ => false
  end.

(** [r[y] = v]: an assignment past the end extends the array, leaving
    holes in between. *)
Definition array_set (r : list jsval) (y : nat) (v : jsval) : list jsval :=
  if decide (y < length r) then <[y := v]> r
  else r ++ replicate (y - length r) JUndef ++ [v].

(** A [for] loop whose body may throw: the state is threaded through the
    iterations, and the first exception ends the loop. *)
Fixpoint for_each {S A : Type} (l : list A) (body : S -> A -> option S)
    (s : S) : option S :=
  match l with
  | [] => Some s
  | a :: l' => s' ← body s a; for_each l' body s'
  end.

(** The value of [m / b] on two counters, as far as [>] can tell values
    apart: [0 / 0] is NaN, [m / 0] is Infinity, and otherwise the
    quotient. On counters below 2^26 the exact quotients of two distinct
    fractions differ by far more than a double's rounding error, so
    comparing the fractions exactly is comparing the doubles. *)
Inductive quotient : Type :=
| QNaN
| QInf
| QFrac (n d : N).

Definition js_div (m b : N) : quotient :=
  if (b =? 0)%N then (if (m =? 0)%N then QNaN else QInf) else QFrac m b.

(** [a > b]; every comparison with NaN is false. *)
Definition quotient_gt (a b : quotient) : bool :=
  match a, b with
  | QNaN, _ | _, QNaN => false
  | QInf, QInf => false
  | QInf, QFrac _ _ => true
  | QFrac _ _, QInf => false
  | QFrac n d, QFrac n' d' => (n' * d <? n * d')%N
  end.

End JS.

(** ** The template matcher ([captcha_parse]) *)

Module TemplateMatcher.
Import JS.

(** The symbol table of the template matcher. *)
Definition chars : string := "123456789ABCDEFGHIJKLMNPQRSTUVWXYZ".

Section WithBitmaps.

(** [bitmaps.json] is not part of the sources at hand: the table of
    templates is a parameter. [bitmaps ch] is [None] when the table has no
    entry for [ch]. *)
Variable bitmaps : ascii -> option Grid.

(** The body of the cleaning loop at [(x, y)]. The three conditions are
    computed in the order of the source; [&&] does not evaluate its right
    operand when the left one is false, so [imgarr[x + 1]] is only read
    when the first two conjuncts of [condition2] hold. *)
Definition clean_cell (imgarr : Grid) (x y : nat) : option Grid :=
  rx ← imgarr !! x;
  let condition1 :=
    strict_eq_num (at_index rx (y - 1)) 255
    && strict_eq_num (at_index rx y) 0
    && strict_eq_num (at_index rx (y + 1)) 255 in
  rup ← imgarr !! (x - 1);
  condition2 ←
    (if strict_eq_num (at_index rup y) 255 && strict_eq_num (at_index rx y) 0
     then rdown ← imgarr !! (x + 1);
          Some (strict_eq_num (at_index rdown y) 255)
     else Some false);
  let condition3 :=
    negb (strict_eq_num (at_index rx y) 255)
    && negb (strict_eq_num (at_index rx y) 0) in
  if condition1 || condition2 || condition3
  then Some (<[x := array_set rx y (JNum 255)]> imgarr)
  else Some imgarr.

(** [for (x = 1; x < 44; x++) for (y = 1; y < 179; y++) ...], updating
    [imgarr] in place. *)
Definition clean (imgarr : Grid) : option Grid :=
  for_each (seq 1 43)
    (fun g x => for_each (seq 1 178) (fun g' y => clean_cell g' x y) g)
    imgarr.

(** One step of the innermost matching loop: the counters are
    [(match, black)]. *)
Definition count_cell (imgarr : Grid) (mask : option Grid) (j x y : nat)
    (acc : N * N) : option (N * N) :=
  let y1 := y + j - 30 in
  let x1 := x + 12 in
  ri ← imgarr !! x1;
  m ← mask;
  rm ← m !! x;
  let hit := loose_eq (at_index ri y1) (at_index rm y)
             && loose_eq (at_index rm y) (JNum 0) in
  let dark := loose_eq (at_index rm y) (JNum 0) in
  Some ((if hit then fst acc + 1 else fst acc)%N,
        (if dark then snd acc + 1 else snd acc)%N).

(** The two counters of symbol [ch] in the band that ends at column [j]. *)
Definition count_symbol (imgarr : Grid) (j : nat) (ch : ascii)
    : option (N * N) :=
  for_each (seq 0 32)
    (fun acc x =>
       for_each (seq 0 30) (fun acc' y => count_cell imgarr (bitmaps ch) j x y acc')
         acc)
    (0%N, 0%N).

(** The entries of [matches]: [[perc, ch]]. The second component of the
    initial value of [reduce] is the number [0], written [None] here. *)
Definition entry : Type := quotient * option ascii.

(** [matches] after the loop over the symbol table. *)
Definition matches_of (imgarr : Grid) (j : nat) : option (list entry) :=
  mapM (fun ch => '(m, b) ← count_symbol imgarr j ch;
                  Some (js_div m b, Some ch))
       (list_ascii_of_string chars).

(** [function (a, b) { return a[0] > b[0] ? a : b; }] *)
Definition pick (a b : entry) : entry :=
  if quotient_gt (fst a) (fst b) then a else b.

(** [matches.reduce(pick, [0, 0])] *)
Definition reduce_matches (matches : list entry) : entry :=
  foldl pick (QFrac 0 1, None) matches.

(** [captcha += e[1]]: a symbol is appended as it is, the number [0] as
    the string "0". *)
Definition append_entry (captcha : string) (e : entry) : string :=
  match snd e with
  | Some ch => captcha ++ String ch EmptyString
  | None => captcha ++ "0"
  end.

(** The bands: [for (j = 30; j < 181; j += 30)]. *)
Definition bands : list nat := [30; 60; 90; 120; 150; 180].

(** The matching loop on an already cleaned grid. *)
Definition match_bands (imgarr : Grid) : option string :=
  for_each bands
    (fun captcha j =>
       matches ← matches_of imgarr j;
       Some (append_entry captcha (reduce_matches matches)))
    EmptyString.

Definition captcha_parse (imgarr : Grid) : option string :=
  cleaned ← clean imgarr;
  match_bands cleaned.

(** *** What the matching loop computes, stated position by position *)

(** [g[x][y]] where row [x] is known to exist. *)
Definition cell (g : Grid) (x y : nat) : jsval :=
  at_index (default [] (g !! x)) y.

(** The positions of a 32-row by 30-column template, in loop order. *)
Definition positions : list (nat * nat) :=
  x ← seq 0 32; y ← seq 0 30; [(x, y)].

(** A template pixel is foreground when it is [0]. *)
Definition foreground (mask : Grid) (p : nat * nat) : bool :=
  loose_eq (cell mask p.1 p.2) (JNum 0).

(** The number of foreground pixels of a template. *)
Definition black_count (mask : Grid) : N :=
  N.of_nat (length (filter (fun p => foreground mask p) positions)).

(** The number of foreground pixels of a template that are foreground in
    the image as well, the template being laid over rows 12..43 and columns
    [30 * k .. 30 * k + 29] of the image. *)
Definition match_count (g mask : Grid) (k : nat) : N :=
  N.of_nat (length (filter
    (fun p => foreground mask p
              && strict_eq_num (cell g (p.1 + 12) (30 * k + p.2)) 0)
    positions)).

(** The score of symbol [ch] in band [k] (counted from 0), as the fraction
    [match_count / black_count]. *)
Definition score (g : Grid) (k : nat) (ch : ascii) : N * N :=
  match bitmaps ch with
  | Some mask => (match_count g mask k, black_count mask)
  | None => (0%N, 0%N)
  end.

(** Fractions with positive denominators, compared by cross
    multiplication. *)
Definition score_le (a b : N * N) : Prop := (a.1 * b.2 <= b.1 * a.2)%N.
Definition score_lt (a b : N * N) : Prop := (a.1 * b.2 < b.1 * a.2)%N.

Definition symbols : list ascii := list_ascii_of_string chars.

(** [w] has the highest score of band [k], and among the symbols that
    reach it, it is the one that comes last in the table. *)
Definition selected_last (g : Grid) (k : nat) (w : ascii) : Prop :=
  exists i, symbols !! i = Some w
    /\ (forall i' c, symbols !! i' = Some c ->
          score_le (score g k c) (score g k w))
    /\ (forall i' c, i < i' -> symbols !! i' = Some c ->
          score_lt (score g k c) (score g k w)).

(** The rule as the specification words it: [w] has the highest score of
    band [k], and among the symbols that reach it, it is the one that is
    encountered first. *)
Definition selected_first (g : Grid) (k : nat) (w : ascii) : Prop :=
  exists i, symbols !! i = Some w
    /\ (forall i' c, symbols !! i' = Some c ->
          score_le (score g k c) (score g k w))
    /\ (forall i' c, i' < i -> symbols !! i' = Some c ->
          score_lt (score g k c) (score g k w)).

(** The table has a template of at least 32 rows, with at least one
    foreground pixel, for each of the 34 symbols. *)
Definition bitmaps_ok : Prop :=
  forall ch, ch ∈ symbols ->
    exists mask, bitmaps ch = Some mask
      /\ 32 <= length mask
      /\ (0 < black_count mask)%N.

(** Every symbol has a template of at least 32 rows. *)
Definition bitmaps_present : Prop :=
  forall ch, ch ∈ symbols ->
    exists mask, bitmaps ch = Some mask /\ 32 <= length mask.

(** The entry that the loop over the symbol table pushes for [ch]. *)
Definition entry_of (g : Grid) (k : nat) (ch : ascii) : entry :=
  (js_div (score g k ch).1 (score g k ch).2, Some ch).

(** One iteration of the matching loop, when nothing throws. *)
Definition tally (g mask : Grid) (k : nat) (acc : N * N) (p : nat * nat)
    : N * N :=
  ((if foreground mask p
       && strict_eq_num (cell g (p.1 + 12) (30 * k + p.2)) 0
    then acc.1 + 1 else acc.1)%N,
   (if foreground mask p then acc.2 + 1 else acc.2)%N).

End WithBitmaps.

(** The fraction behind an entry. *)
Definition frac_of (e : entry) : N * N :=
  match e.1 with
  | QFrac n d => (n, d)
  | _ => (0%N, 0%N)
  end.

(** An entry whose score is a fraction with a positive denominator. *)
Definition proper (e : entry) : Prop :=
  exists n d, e.1 = QFrac n d /\ (0 < d)%N.

(** The cells that the cleaning loop of [captcha_parse] visits, in the
    order of the loop. *)
Definition interior : list (nat * nat) :=
  x ← seq 1 43; y ← seq 1 178; [(x, y)].

(** *** Sample inputs *)

(** A grid of [rows] by [cols] holding [v] everywhere. *)
Definition solid (rows cols : nat) (v : Z) : Grid :=
  replicate rows (replicate cols (JNum v)).

(** A table in which every template is all foreground. *)
Definition all_black_bitmaps : ascii -> option Grid :=
  fun _ => Some (solid 32 30 0).

(** A blank (all background) image of 45 rows and 180 columns. *)
Definition blank_45x180 : Grid := solid 45 180 255.

(** A grid of 44 rows and 179 columns: background, with a foreground
    bottom row. *)
Definition dark_bottom_44x179 : Grid :=
  solid 43 179 255 ++ [replicate 179 (JNum 0)].

End TemplateMatcher.

(** ** The linear classifier ([solveCaptchaFromBase64]) *)

Module LinearClassifier.
Import JS.

(** The label table of the linear classifier. *)
Definition label_txt : string := "ABCDEFGHJKLMNPQRSTUVWXYZ23456789".

Definition HEIGHT : nat := 40.
Definition WIDTH : nat := 200.

(** An entry of the saturation arrays: an integer, or [None] for a value
    that is NaN or [undefined]. The two behave alike in everything the
    code does with these entries: adding one to a number gives NaN, and
    comparing one with a number is false. *)
Abbreviation intensity := (option N).

(** [Math.round(a / m)] on two non-negative integers, where [a] is [0]
    whenever [m] is: [0 / 0] is NaN, and otherwise the quotient is rounded
    to the nearest integer, halves upwards. For [a] and [m] below 2^16 the
    double [a / m] lies on the same side of every half-integer as the
    exact quotient, so the rounding is that of the exact quotient. *)
Definition math_round_div (a m : N) : intensity :=
  if (m =? 0)%N then None else Some ((2 * a + m) / (2 * m))%N.

(** The body of the first loop of [saturation], at byte offset [i]: [d] is
    the RGBA data of a canvas, each entry a byte. A read past the end is
    [undefined], which turns [Math.min] and [Math.max] into NaN. *)
Definition saturate_pixel (d : list N) (i : nat) : intensity :=
  r ← d !! i; g ← d !! (i + 1); b ← d !! (i + 2);
  let min := N.min r (N.min g b) in
  let max := N.max r (N.max g b) in
  math_round_div ((max - min) * 255) max.

(** [saturate], after the first loop. [new Array(d.length / 4)] throws
    unless the length is a multiple of 4. *)
Definition saturate (d : list N) : option (list intensity) :=
  if (length d mod 4 =? 0)
  then Some ((fun k => saturate_pixel d (4 * k)) <$> seq 0 (length d / 4))
  else None.

(** [img]: 40 rows of 200 entries, [img[i][j] = saturate[i * 200 + j]]. *)
Definition image_rows (sat : list intensity) : list (list intensity) :=
  (fun i => (fun j => mjoin (sat !! (i * 200 + j))) <$> seq 0 200) <$> seq 0 40.

(** [l.slice(a, b)] for [0 <= a]. *)
Definition slice {A : Type} (a b : nat) (l : list A) : list A :=
  take (b - a) (drop a l).

(** [bls[i]]: the cell of character [i]. *)
Definition cell_block (img : list (list intensity)) (i : nat)
    : list (list intensity) :=
  let x1 := (i + 1) * 25 + 2 in
  let y1 := 7 + 5 * (i mod 2) + 1 in
  let x2 := (i + 2) * 25 + 1 in
  let y2 := 35 - 5 * ((i + 1) mod 2) in
  slice x1 x2 <$> slice y1 y2 img.

Definition saturation (d : list N) : option (list (list (list intensity))) :=
  sat ← saturate d;
  Some (cell_block (image_rows sat) <$> seq 0 6).

(** [avg], as the sum it is computed from: [avg = sum / (24 * 22)]. *)
Definition intensity_sum (img : list (list intensity)) : intensity :=
  foldl (fun acc f => a ← acc; x ← f; Some (a + x)%N) (Some 0%N) (concat img).

(** [v > avg]. With [avg = sum / 528] and integers below 2^24, the double
    [sum / 528] is above, at or below the integer [v] exactly when the
    exact quotient is. *)
Definition above_average (sum v : intensity) : bool :=
  match sum, v with
  | Some t, Some x => (t <? 528 * x)%N
  | _, _ => false
  end.

(** [pre_img]: every row of the result has the length of [img[0]]. *)
Definition pre_img (img : list (list intensity)) : list (list float) :=
  let sum := intensity_sum img in
  (fun row =>
     (fun j => if above_average sum (mjoin (row !! j)) then one else zero)
     <$> seq 0 (length (default [] (img !! 0))))
  <$> img.

(** A number read from an array of numbers: [undefined] becomes NaN in
    arithmetic. *)
Definition number_at (r : list float) (k : nat) : float :=
  default nan (r !! k).

(** [flatten] *)
Definition flatten (arr : list (list float)) : list float :=
  i ← seq 0 (length arr);
  j ← seq 0 (length (default [] (arr !! 0)));
  [number_at (default [] (arr !! i)) j].

(** [mat_mul]: [a[0]] and [b[0]] must exist, and so must [b[k]] for every
    [k] below the length of [a[0]] as soon as [b[0]] is not empty. *)
Definition mat_mul (a b : list (list float)) : option (list (list float)) :=
  a0 ← a !! 0;
  b0 ← b !! 0;
  mapM (fun ai =>
    mapM (fun j =>
      for_each (seq 0 (length a0))
        (fun acc k => bk ← b !! k;
                      Some (acc + number_at ai k * number_at bk j)%float)
        zero)
      (seq 0 (length b0)))
    a.

(** [mat_add] *)
Definition mat_add (a b : list float) : list float :=
  (fun i => (number_at a i + number_at b i)%float) <$> seq 0 (length a).

Section WithModel.

(** [Math.exp] is left to the platform by the language definition. *)
Variable Math_exp : float -> float.

(** The trained model that [bitmaps.json] holds, which is not part of the
    sources at hand. *)
Variable weights : list (list float).
Variable biases : list float.

(** The model has a weight row for each of the 528 inputs. *)
Definition model_ok : Prop := 528 <= length weights.

(** [max_soft] *)
Definition max_soft (a : list float) : list float :=
  let s := foldl (fun s f => (s + Math_exp f)%float) zero a in
  (fun x => (Math_exp x / s)%float) <$> a.

(** One step of [Math.max]: NaN is contagious, a larger number replaces
    the highest so far, and so does [+0] when the highest so far is [-0]. *)
Definition max_step (highest x : float) : float :=
  if is_nan highest || is_nan x then nan
  else if (highest <? x)%float then x
  else match classify highest, classify x with
       | FloatClass.NZero, FloatClass.PZero => x
       | _, _ => highest
       end.

(** [Math.max(...l)] *)
Definition math_max (l : list float) : float :=
  foldl max_step neg_infinity l.

(** [l.indexOf(m)], from position [i] on: the first index whose entry is
    [===] to [m], or [-1]. *)
Fixpoint index_from (i : Z) (l : list float) (m : float) : Z :=
  match l with
  | [] => (-1)%Z
  | x :: l' => if (x =? m)%float then i else index_from (i + 1)%Z l' m
  end.

Definition indexOf (l : list float) (m : float) : Z := index_from 0%Z l m.

(** [out += label_txt[idx]]: an index outside the table reads
    [undefined], which is appended as the text "undefined". *)
Definition label_at (idx : Z) : string :=
  match (if (0 <=? idx)%Z then String.get (Z.to_nat idx) label_txt else None) with
  | Some c => String c EmptyString
  | None => "undefined"
  end.

(** The vector that the body of the classification loop has after
    [max_soft], for one cell. [mat_add(...bls[i], biases)] spreads the one
    row of the product. *)
Definition cell_probs (block : list (list intensity)) : option (list float) :=
  product ← mat_mul [flatten (pre_img block)] weights;
  row ← product !! 0;
  Some (max_soft (mat_add row biases)).

(** The index that the body of the classification loop computes for one
    cell: [bls[i].indexOf(Math.max(...bls[i]))]. *)
Definition cell_index (block : list (list intensity)) : option Z :=
  probs ← cell_probs block;
  Some (indexOf probs (math_max probs)).

(** The classification loop over the six cells. *)
Definition classify_cells (bls : list (list (list intensity))) : option string :=
  for_each (seq 0 6)
    (fun out i => block ← bls !! i;
                  idx ← cell_index block;
                  Some (out ++ label_at idx)%string)
    EmptyString.

(** A decoded picture, at the resolution of its file. *)
Record Image : Type := {
  naturalWidth : nat;
  naturalHeight : nat;
  pixels : list N
}.

(** The [canvas] package and the file system are collaborators.
    [loadImage payload] is the picture decoded from the base64 payload,
    and [None] when loading it throws. [drawn img w h] is the RGBA data
    that [getImageData(0, 0, w, h)] returns after
    [drawImage(img, 0, 0, w, h)] on a canvas of [w] by [h]. *)
Variable loadImage : string -> option Image.
Variable drawn : Image -> nat -> nat -> list N.

(** [s.split(',')[1]]: what stands between the first comma and the next,
    or [None] when [s] has no comma. *)
Fixpoint until_comma (s : string) : string :=
  match s with
  | EmptyString => EmptyString
  | String c s' => if Ascii.eqb c "," then EmptyString
                   else String c (until_comma s')
  end.

Fixpoint split_comma_1 (s : string) : option string :=
  match s with
  | EmptyString => None
  | String c s' => if Ascii.eqb c "," then Some (until_comma s')
                   else split_comma_1 s'
  end.

(** [solveCaptchaFromBase64]; [None] is the [null] of the [catch]
    branch. *)
Definition solveCaptchaFromBase64 (base64String : string) : option string :=
  imageData ← split_comma_1 base64String;
  img ← loadImage imageData;
  bls ← saturation (drawn img WIDTH HEIGHT);
  classify_cells bls.

End WithModel.

(** *** Sample inputs *)

(** A model whose weights and biases are all zero: 528 inputs, 32
    classes. *)
Definition zero_weights : list (list float) := replicate 528 (replicate 32 zero).
Definition zero_biases : list float := replicate 32 zero.

(** A stand-in for [Math.exp] that agrees with it at [0], the only
    argument that the zero model passes to it. *)
Definition exp_near_zero (x : float) : float := (one + x)%float.

(** Drawing a picture of a single colour onto a canvas fills the canvas
    with that colour, whatever the interpolation. *)
Definition draw_uniform (img : Image) (w h : nat) : list N :=
  concat (replicate (w * h) (take 4 (pixels img))).

(** A red picture of one pixel. *)
Definition red_pixel_image : Image :=
  {| naturalWidth := 1; naturalHeight := 1; pixels := [255; 0; 0; 255]%N |}.

(** A black picture of 200 by 40 pixels. *)
Definition black_image : Image :=
  {| naturalWidth := 200; naturalHeight := 40;
     pixels := concat (replicate (200 * 40) [0; 0; 0; 255]%N) |}.

End LinearClassifier.

(** ** The solver and the files ([solveCaptchaFromBase64], [solveCaptchaFromFile]) *)

Module TempFile.
Import LinearClassifier.

(** The files that the solver reads and writes: the content at each
    path. A content is named by the base64 text that encodes it, so that
    [Buffer.from(imageData, 'base64')] is the content [imageData].
    [fs.writeFileSync] and [fs.unlinkSync] are taken not to throw on the
    file that the solver itself wrote. *)
Abbreviation Files := (gmap string string).

Definition tempFilePath : string := "./temp_captcha.jpg".

Section WithModel.

Variable Math_exp : float -> float.
Variable weights : list (list float).
Variable biases : list float.

(** The picture that a content decodes to, [None] when it is none. *)
Variable decode : string -> option Image.
Variable drawn : Image -> nat -> nat -> list N.

(** [loadImage(path)] *)
Definition loadImage (files : Files) (path : string) : option Image :=
  content ← files !! path; decode content.

(** What both entry points do with the picture once it is loaded. *)
Definition classify_image (img : Image) : option string :=
  bls ← saturation (drawn img WIDTH HEIGHT);
  classify_cells Math_exp weights biases bls.

(** [solveCaptchaFromFile]; [None] is the [null] of the [catch]
    branch. *)
Definition solveCaptchaFromFile (files : Files) (imagePath : string)
    : option string :=
  img ← loadImage files imagePath; classify_image img.

(** [solveCaptchaFromBase64], with the files that it leaves. The file is
    written before the picture is loaded from it, and unlinked only at the
    end of the [try] block. *)
Definition solveCaptchaFromBase64 (files : Files) (base64String : string)
    : option string * Files :=
  match split_comma_1 base64String with
  | None => (None, files)
  | Some imageData =>
      let written := <[tempFilePath := imageData]> files in
      match img ← loadImage written tempFilePath; classify_image img with
      | Some out => (Some out, delete tempFilePath written)
      | None => (None, written)
      end
  end.

End WithModel.

End TempFile.

(** ** The login orchestrator ([fetchWithSession], [attemptLogin]) *)

Module Login.

(** [s] is truthy: neither [undefined] or [null], nor the empty string. *)
Definition truthy (s : option string) : bool :=
  match s with
  | Some EmptyString | None => false
  | Some _ => true
  end.

(** [a || b] on values that are strings or [undefined]. *)
Definition or_else (a b : option string) : option string :=
  if truthy a then a else b.

(** [hay.includes(needle)] *)
Fixpoint includes (needle hay : string) : bool :=
  String.prefix needle hay
  || match hay with
     | EmptyString => false
     | String _ hay' => includes needle hay'
     end.

(** A fetched login page, as the answers to the queries that the code
    puts to it through [cheerio] and through regular expressions. *)
Record Page : Type := {
  (** the number of elements with id [captchaBlock] *)
  captchaBlock_length : nat;
  (** the [img] elements whose [alt] is [vtopCaptcha]: how many there
      are, and the [src] attribute of the first *)
  vtopCaptcha_length : nat;
  vtopCaptcha_src : option string;
  (** the elements of classes [form-control] and [img-fluid]: how many
      there are, and the [src] attribute of the first *)
  imgFluid_length : nat;
  imgFluid_src : option string;
  (** the number that the script of the page assigns to the variable
      [captchaType], if the regular expression of the source finds such an
      assignment *)
  captchaType_match : option Z;
  (** the first base64 data URI of a jpeg, png or gif image in the page,
      up to the next double quote, if there is one *)
  base64_match : option string;
  (** the [src] attribute of the first [img] element *)
  first_img_src : option string;
  (** the value of the [input] element named [_csrf] *)
  csrf_input_val : option string;
  (** the [content] attribute of the [meta] element named [_csrf] *)
  csrf_meta_content : option string
}.

Inductive CaptchaType : Type := inbuilt | unknown.

Definition detectCaptchaType (page : Page) : CaptchaType :=
  if (negb (captchaBlock_length page =? 0))
     || (negb (vtopCaptcha_length page =? 0))
     || (negb (imgFluid_length page =? 0))
  then inbuilt
  else match captchaType_match page with
       | Some 1%Z => inbuilt
       | _ => match base64_match page with
              | Some _ => inbuilt
              | None => unknown
              end
       end.

Definition extractCaptchaImage (page : Page) : option string :=
  let captchaImg := or_else (vtopCaptcha_src page) (imgFluid_src page) in
  if truthy captchaImg then captchaImg
  else match base64_match page with
       | Some m => Some m
       | None =>
           match first_img_src page with
           | Some anyImg =>
               if truthy (Some anyImg) && includes "base64" anyImg
               then Some anyImg else None
           | None => None
           end
       end.

(** What [fetchWithSession] returns when it does not return [null]. *)
Record Challenge : Type := {
  csrf : string;
  captchaSolution : string
}.

(** The requests that reached the transport, oldest first. *)
Inductive Event : Type :=
| EvGet
| EvPost (loginUrl : string).

(** The remote portal, as seen through one client: what a request
    answers, given the requests made before it. [None] is a request that
    throws (a timeout, a refused connection, an error status). *)
Record Remote : Type := {
  on_get : list Event -> option Page;
  on_post : list Event -> string -> option string
}.

Inductive ErrorType : Type := credentials | captcha.

Definition checkResponseForErrors (html : string) : option ErrorType :=
  if negb (truthy (Some html)) then None
  else if includes "Invalid LoginId/Password" html then Some credentials
  else if includes "Invalid Captcha" html then Some captcha
  else None.

Inductive LoginResult : Type :=
| Success (data : string)
| Failure (message : string).

Section WithCollaborators.

(** The solver of [captchasolver.js]; it catches its own exceptions and
    returns [null] ([None]) for them. *)
Variable solveCaptchaFromBase64 : string -> option string.

(** A library function of the language. *)
Variable encodeURIComponent : string -> string.

Variable remote : Remote.

(** The body of the loop of [fetchWithSession] once the page is there:
    the challenge it returns, or [None] to go on with the next attempt. *)
Definition challenge_of (page : Page) : option Challenge :=
  match detectCaptchaType page with
  | inbuilt =>
      let csrfToken := or_else (csrf_input_val page) (csrf_meta_content page) in
      let captchaImage := extractCaptchaImage page in
      match captchaImage, csrfToken with
      | Some image, Some token =>
          if truthy captchaImage && truthy csrfToken
          then match solveCaptchaFromBase64 image with
               | Some solution =>
                   if truthy (Some solution)
                   then Some {| csrf := token; captchaSolution := solution |}
                   else None
               | None => None
               end
          else None
      | _, _ => None
      end
  | unknown => None
  end.

(** The loop of [fetchWithSession] with [n] attempts left. The [try]
    encloses the whole loop: a request that throws ends the function with
    [null]. *)
Fixpoint fetch_attempts (n : nat) (log : list Event)
    : option Challenge * list Event :=
  match n with
  | O => (None, log)
  | S n' =>
      match on_get remote log with
      | None => (None, log ++ [EvGet])
      | Some page =>
          match challenge_of page with
          | Some ch => (Some ch, log ++ [EvGet])
          | None => fetch_attempts n' (log ++ [EvGet])
          end
      end
  end.

Definition fetchWithSession (log : list Event)
    : option Challenge * list Event :=
  fetch_attempts 10 log.

Definition loginUrl_of (username password : string) (ch : Challenge) : string :=
  ("https://vtop.vit.ac.in/vtop/login?_csrf=" ++ csrf ch
   ++ "&username=" ++ encodeURIComponent username
   ++ "&password=" ++ encodeURIComponent password
   ++ "&captchaStr=" ++ captchaSolution ch)%string.

(** The [while] loop of [attemptLogin] with [n] rounds left. *)
Fixpoint login_rounds (n : nat) (username password : string)
    (log : list Event) : LoginResult * list Event :=
  match n with
  | O => (Failure "Maximum login attempts reached", log)
  | S n' =>
      match fetchWithSession log with
      | (None, log1) => login_rounds n' username password log1
      | (Some ch, log1) =>
          let url := loginUrl_of username password ch in
          let log2 := log1 ++ [EvPost url] in
          match on_post remote log1 url with
          | None => login_rounds n' username password log2
          | Some data =>
              match checkResponseForErrors data with
              | Some credentials => (Failure "Invalid credentials", log2)
              | Some captcha => login_rounds n' username password log2
              | None => (Success data, log2)
              end
          end
      end
  end.

End WithCollaborators.

(** [attemptLogin]: [client] is [None] when the caller passes no client;
    otherwise it stands for the remote it talks to. The result comes with
    the requests that were made, oldest first. *)
Definition attemptLogin (solveCaptchaFromBase64 : string -> option string)
    (encodeURIComponent : string -> string)
    (username password : string) (client : option Remote)
    : LoginResult * list Event :=
  match client with
  | None => (Failure "No client provided", [])
  | Some remote =>
      login_rounds solveCaptchaFromBase64 encodeURIComponent remote 5
        username password []
  end.

(** The portal answers every submit, and every answer carries the marker
    of wrong credentials. *)
Definition always_rejects (remote : Remote) : Prop :=
  forall log url, exists data,
    on_post remote log url = Some data
    /\ includes "Invalid LoginId/Password" data = true.

(** No page that the portal serves has anything that [detectCaptchaType]
    looks for. *)
Definition never_captcha (remote : Remote) : Prop :=
  forall log, exists page,
    on_get remote log = Some page /\ detectCaptchaType page = unknown.

(** The number of fetch and of submit requests in a log. *)
Definition is_get (e : Event) : bool :=
  match e with EvGet => true | EvPost _ => false end.

Definition is_post (e : Event) : bool :=
  match e with EvPost _ => true | EvGet => false end.

Definition fetches (log : list Event) : nat :=
  length (filter (fun e => is_get e) log).

Definition submits (log : list Event) : nat :=
  length (filter (fun e => is_post e) log).

(** *** Sample collaborators *)

(** A login page that carries a CAPTCHA image and the given token. *)
Definition captcha_page_with (token : string) : Page :=
  {| captchaBlock_length := 1;
     vtopCaptcha_length := 1;
     vtopCaptcha_src := Some "data:image/jpeg;base64,AAAA";
     imgFluid_length := 0;
     imgFluid_src := None;
     captchaType_match := None;
     base64_match := Some "data:image/jpeg;base64,AAAA";
     first_img_src := Some "data:image/jpeg;base64,AAAA";
     csrf_input_val := Some token;
     csrf_meta_content := None |}.

Definition captcha_page : Page := captcha_page_with "tok".

(** A login page without anything that [detectCaptchaType] looks for. *)
Definition plain_page : Page :=
  {| captchaBlock_length := 0;
     vtopCaptcha_length := 0;
     vtopCaptcha_src := None;
     imgFluid_length := 0;
     imgFluid_src := None;
     captchaType_match := None;
     base64_match := None;
     first_img_src := None;
     csrf_input_val := Some "tok";
     csrf_meta_content := None |}.

(** A solver that answers every image with the same six characters. *)
Definition constant_solver : string -> option string :=
  fun _ => Some "ABCDEF".

(** Percent-encoding leaves letters and digits as they are. *)
Definition identity_encoding : string -> string := fun s => s.

(** A portal that rejects the credentials at every submit. *)
Definition rejecting_remote : Remote :=
  {| on_get := fun _ => Some captcha_page;
     on_post := fun _ _ => Some "<p>Invalid LoginId/Password</p>" |}.

(** A portal that answers the first submit with "Invalid Captcha" and the
    later ones with the home page, and that puts a new token in the login
    page once a submit was made. *)
Definition second_try_remote : Remote :=
  {| on_get := fun log =>
       Some (captcha_page_with (if submits log =? 0 then "tok1" else "tok2"));
     on_post := fun log _ =>
       if submits log =? 0 then Some "<p>Invalid Captcha</p>"
       else Some "<html>home</html>" |}.

(** A portal whose answer to the first submit carries both markers. *)
Definition both_markers_remote : Remote :=
  {| on_get := fun _ => Some captcha_page;
     on_post := fun log _ =>
       if submits log =? 0
       then Some "<p>Invalid LoginId/Password</p><p>Invalid Captcha</p>"
       else Some "<html>home</html>" |}.

(** A portal whose login page never shows a CAPTCHA. *)
Definition captchaless_remote : Remote :=
  {| on_get := fun _ => Some plain_page;
     on_post := fun _ _ => Some "<html>home</html>" |}.

(** A portal that rejects the credentials at every submit, and whose
    login page never shows a CAPTCHA. *)
Definition rejecting_captchaless_remote : Remote :=
  {| on_get := fun _ => Some plain_page;
     on_post := fun _ _ => Some "<p>Invalid LoginId/Password</p>" |}.

End Login.

(** ** The session cache ([userSessions], [getUserClient], the sweep) *)

Module Registry.

(** [5 * 60 * 1000] milliseconds. *)
Definition SESSION_TIMEOUT : Z := 5 * 60 * 1000.

(** The period of the [setInterval] that runs the sweep. *)
Definition SWEEP_INTERVAL : Z := 5 * 60 * 1000.

(** A client is known by the order in which [getNewClient] made it. The
    entry that [getUserClient] stores has no [studentId] and no [csrf];
    the route handlers store one that has both. *)
Record Session : Type := {
  client : nat;
  studentId : option string;
  csrf : option string;
  lastUsed : Z
}.

Record State : Type := {
  userSessions : gmap string Session;
  clients_made : nat
}.

Definition initial : State :=
  {| userSessions := ∅; clients_made := 0 |}.

(** [userSessions.set(username, { client: getNewClient(), lastUsed: now })] *)
Definition store_new_client (username : string) (now : Z) (st : State)
    : nat * State :=
  let c := clients_made st in
  (c, {| userSessions :=
           <[username := {| client := c; studentId := None; csrf := None;
                            lastUsed := now |}]> (userSessions st);
         clients_made := S c |}).

(** [getUserClient], called when the clock reads [now]; the call is
    synchronous, and its readings of the clock are taken to agree. *)
Definition getUserClient (username : string) (now : Z) (st : State)
    : nat * State :=
  match userSessions st !! username with
  | Some session =>
      if (now - lastUsed session <? SESSION_TIMEOUT)%Z
      then (client session,
            {| userSessions :=
                 <[username := {| client := client session;
                                  studentId := studentId session;
                                  csrf := csrf session;
                                  lastUsed := now |}]> (userSessions st);
               clients_made := clients_made st |})
      else store_new_client username now
             {| userSessions := delete username (userSessions st);
                clients_made := clients_made st |}
  | None => store_new_client username now st
  end.

(** The body of the [setInterval] callback, run when the clock reads
    [now]: every entry with [now - lastUsed > SESSION_TIMEOUT] is
    deleted. *)
Definition sweep (now : Z) (st : State) : State :=
  {| userSessions :=
       filter (fun kv => (now - lastUsed kv.2 <= SESSION_TIMEOUT)%Z)
              (userSessions st);
     clients_made := clients_made st |}.

End Registry.

(** ** The route handlers, between their [await]s *)

Module Server.
Import Registry.

(** The process: the session cache, and the calls of [attemptLogin] made
    so far, each with its principal and the client it was given, oldest
    first. *)
Record Process : Type := {
  sessions : Registry.State;
  login_calls : list (string * nat)
}.

(** [session?.studentId && session?.csrf] *)
Definition authenticated (session : option Session) : bool :=
  match session with
  | Some s => Login.truthy (studentId s) && Login.truthy (Registry.csrf s)
  | None => false
  end.

(** What the event loop runs without interruption. A handler runs from
    the arrival of its request to its first [await]; that [await] is on
    the data of the principal when the cache holds an authenticated
    session, and on [attemptLogin] otherwise. A handler that awaited
    [attemptLogin] resumes when the login is over, with the identifier and
    the token taken from the response, or with nothing when the login
    failed or the response held none. *)
Inductive Step : Type :=
| Arrive (username : string) (now : Z)
| LoginOver (username : string) (client : nat)
    (tokens : option (string * string)) (now : Z).

Definition step (p : Process) (s : Step) : Process :=
  match s with
  | Arrive username now =>
      let '(client, st) := getUserClient username now (sessions p) in
      if authenticated (userSessions st !! username)
      then {| sessions := st; login_calls := login_calls p |}
      else {| sessions := st;
              login_calls := login_calls p ++ [(username, client)] |}
  | LoginOver username client tokens now =>
      let st := sessions p in
      match tokens with
      | Some (id, token) =>
          if Login.truthy (Some id) && Login.truthy (Some token)
          then {| sessions :=
                    {| userSessions :=
                         <[username := {| Registry.client := client;
                                          studentId := Some id;
                                          Registry.csrf := Some token;
                                          lastUsed := now |}]>
                           (userSessions st);
                       clients_made := clients_made st |};
                  login_calls := login_calls p |}
          else {| sessions :=
                    {| userSessions := delete username (userSessions st);
                       clients_made := clients_made st |};
                  login_calls := login_calls p |}
      | None =>
          {| sessions :=
               {| userSessions := delete username (userSessions st);
                  clients_made := clients_made st |};
             login_calls := login_calls p |}
      end
  end.

(** The steps of a run, in the order in which the event loop takes them. *)
Definition run (steps : list Step) (p : Process) : Process :=
  foldl step p steps.

(** The number of logins attempted for a principal. *)
Definition logins_for (username : string) (p : Process) : nat :=
  length (filter (fun c => c.1 = username) (login_calls p)).

Definition start : Process :=
  {| sessions := Registry.initial; login_calls := [] |}.

(** The times of requests each of which arrives less than the timeout
    after the one before it, the first of them after [last]. *)
Fixpoint in_quick_succession (last : Z) (times : list Z) : Prop :=
  match times with
  | [] => True
  | t :: times' =>
      (t - last < SESSION_TIMEOUT)%Z /\ in_quick_succession t times'
  end.

End Server.

(** * Properties *)

(** ** Loops *)

Module LoopFacts.
Import JS.

Lemma for_each_pure {S A : Type} (l : list A) (body : S -> A -> option S)
    (step : S -> A -> S) :
  (forall s a, a ∈ l -> body s a = Some (step s a)) ->
  forall s, for_each l body s = Some (foldl step s l).
Proof.
  induction l as [|a l IH]; intros Hb s; simpl; [done|].
  rewrite Hb by left. simpl. apply IH.
  intros s' a' Hin. apply Hb. by right.
Qed.

Lemma for_each_inv {S A : Type} (P : S -> Prop) (l : list A)
    (body : S -> A -> option S) :
  (forall s a, a ∈ l -> P s -> exists s', body s a = Some s' /\ P s') ->
  forall s, P s -> exists s', for_each l body s = Some s' /\ P s'.
Proof.
  induction l as [|a l IH]; intros Hb s Hs; simpl; [by exists s|].
  destruct (Hb s a) as (s1 & -> & Hs1); [by left|done|]. simpl.
  apply IH; [|done]. intros s' a' Hin. apply Hb. by right.
Qed.

Lemma foldl_bind {S A B : Type} (f : S -> B -> S) (g : A -> list B)
    (l : list A) (s : S) :
  foldl f s (l ≫= g) = foldl (fun s' a => foldl f s' (g a)) s l.
Proof.
  revert s. induction l as [|a l IH]; intros s; [done|].
  change ((a :: l) ≫= g) with (g a ++ (l ≫= g)).
  rewrite foldl_app. apply IH.
Qed.

Lemma for_each_cons {S A : Type} (a : A) (l : list A)
    (body : S -> A -> option S) (s : S) :
  for_each (a :: l) body s = body s a ≫= for_each l body.
Proof. done. Qed.

Lemma bind_Some {A B : Type} (x : A) (f : A -> option B) :
  Some x ≫= f = f x.
Proof. reflexivity. Qed.

Lemma for_each_nil {S A : Type} (body : S -> A -> option S) (s : S) :
  for_each [] body s = Some s.
Proof. done. Qed.

Lemma foldl_pointwise {S A : Type} (f g : S -> A -> S) (l : list A) :
  (forall s a, f s a = g s a) ->
  forall s, foldl f s l = foldl g s l.
Proof.
  intros Hfg. induction l as [|a l IH]; intros s; simpl; [done|].
  by rewrite Hfg, IH.
Qed.

End LoopFacts.

(** ** Strings *)

Module StringFacts.

Lemma append_cons (x : ascii) (a b : string) :
  (String x a ++ b = String x (a ++ b))%string.
Proof. reflexivity. Qed.

Lemma append_nil (b : string) : ("" ++ b = b)%string.
Proof. reflexivity. Qed.

Lemma append_assoc (a b c : string) :
  ((a ++ b) ++ c = a ++ (b ++ c))%string.
Proof.
  induction a as [|x a IH]; [done|]. rewrite !append_cons. by rewrite IH.
Qed.

Lemma length_append (a b : string) :
  String.length (a ++ b) = String.length a + String.length b.
Proof.
  induction a as [|x a IH]; [done|]. rewrite append_cons. simpl. by rewrite IH.
Qed.

Lemma get_elem_of (s : string) (n : nat) (c : ascii) :
  String.get n s = Some c -> c ∈ list_ascii_of_string s.
Proof.
  revert n. induction s as [|x s IH]; intros n Hget; [done|].
  destruct n as [|n]; simpl in *.
  - injection Hget as ->. by left.
  - right. by eapply IH.
Qed.

End StringFacts.

(** ** The template matcher *)

Module TemplateFacts.
Import JS TemplateMatcher LoopFacts.

Local Arguments Nat.mul _ _ : simpl never.

Lemma clean_cell_ok (g : Grid) (x y : nat) :
  x + 1 < length g ->
  exists g', clean_cell g x y = Some g' /\ length g' = length g.
Proof.
  intros Hx. unfold clean_cell.
  destruct (lookup_lt_is_Some_2 g x) as [rx ->]; [lia|].
  destruct (lookup_lt_is_Some_2 g (x - 1)) as [rup ->]; [lia|].
  destruct (lookup_lt_is_Some_2 g (x + 1)) as [rdown ->]; [lia|].
  simpl.
  destruct (strict_eq_num (at_index rup y) 255 && strict_eq_num (at_index rx y) 0);
    simpl;
    match goal with
    | |- context [if ?c then _ else _] => destruct c
    end; eexists; split; try reflexivity; by rewrite ?length_insert.
Qed.

(** On a grid of at least 45 rows the cleaning pass runs to its end, and
    keeps the number of rows. *)
Lemma clean_ok (g : Grid) :
  45 <= length g ->
  exists g', clean g = Some g' /\ length g' = length g.
Proof.
  intros Hg. unfold clean.
  destruct (for_each_inv (fun g' : Grid => length g' = length g) (seq 1 43)
    (fun g0 x => for_each (seq 1 178) (fun g' y => clean_cell g' x y) g0))
    with (s := g) as (g' & Hg' & Hlen); [|done|by exists g'].
  intros g0 x Hx Hg0. apply elem_of_seq in Hx.
  apply (for_each_inv (fun g' : Grid => length g' = length g)); [|done].
  intros g1 y _ Hg1.
  destruct (clean_cell_ok g1 x y) as (g2 & ? & ?); [lia|].
  exists g2. split; [done|congruence].
Qed.

Section WithBitmaps.

Variable bitmaps : ascii -> option Grid.

Local Abbreviation bitmaps_present := (bitmaps_present bitmaps).
Local Abbreviation entry_of := (entry_of bitmaps).

Lemma loose_eq_zero (a m : jsval) :
  loose_eq a m && loose_eq m (JNum 0)
  = loose_eq m (JNum 0) && strict_eq_num a 0.
Proof.
  destruct m as [n|], a as [n'|]; simpl; try done;
    try (by rewrite andb_false_r).
  destruct (Z.eqb_spec n' n), (Z.eqb_spec n 0), (Z.eqb_spec n' 0);
    simpl; try done; lia.
Qed.

Lemma count_cell_tally (g mask : Grid) (k x y : nat) (acc : N * N) :
  x + 12 < length g -> x < length mask ->
  count_cell g (Some mask) (30 * (k + 1)) x y acc
  = Some (tally g mask k acc (x, y)).
Proof.
  intros Hg Hm. unfold count_cell, tally, foreground, cell. simpl.
  destruct (lookup_lt_is_Some_2 g (x + 12)) as [ri ->]; [lia|].
  destruct (lookup_lt_is_Some_2 mask x) as [rm ->]; [lia|].
  simpl. rewrite loose_eq_zero.
  replace (y + 30 * (k + 1) - 30) with (30 * k + y) by lia.
  done.
Qed.

Lemma foldl_tally (g mask : Grid) (k : nat) (l : list (nat * nat))
    (acc : N * N) :
  foldl (tally g mask k) acc l
  = ((acc.1 + N.of_nat (length (filter
        (fun p => foreground mask p
                  && strict_eq_num (cell g (p.1 + 12) (30 * k + p.2)) 0) l)))%N,
     (acc.2 + N.of_nat (length (filter (fun p => foreground mask p) l)))%N).
Proof.
  revert acc. induction l as [|p l IH]; intros [m b]; simpl.
  - f_equal; lia.
  - rewrite IH. rewrite !filter_cons. unfold tally at 1 2. simpl.
    destruct (foreground mask p); simpl;
      [destruct (strict_eq_num _ 0); simpl|]; f_equal; lia.
Qed.

(** The counters of the source are the two counts of the position-wise
    description. *)
Lemma count_symbol_score (g : Grid) (k : nat) (ch : ascii) (mask : Grid) :
  44 <= length g -> bitmaps ch = Some mask -> 32 <= length mask ->
  count_symbol bitmaps g (30 * (k + 1)) ch
  = Some (match_count g mask k, black_count mask).
Proof.
  intros Hg Hch Hm. unfold count_symbol. rewrite Hch.
  rewrite (for_each_pure _ _
    (fun acc x => foldl (fun acc' y => tally g mask k acc' (x, y)) acc (seq 0 30))).
  - f_equal.
    transitivity (foldl (tally g mask k) (0%N, 0%N) positions).
    + unfold positions. rewrite foldl_bind. apply foldl_pointwise.
      intros acc x. rewrite foldl_bind. apply foldl_pointwise.
      intros acc' y. done.
    + rewrite foldl_tally. done.
  - intros acc x Hx. apply elem_of_seq in Hx.
    apply for_each_pure. intros acc' y _.
    apply count_cell_tally; lia.
Qed.

Lemma bitmaps_ok_present : bitmaps_ok bitmaps -> bitmaps_present.
Proof.
  intros H ch Hch. destruct (H ch Hch) as (mask & ? & ? & _). by exists mask.
Qed.

Lemma mapM_pure {A B : Type} (f : A -> option B) (h : A -> B) (l : list A) :
  (forall a, a ∈ l -> f a = Some (h a)) -> mapM f l = Some (h <$> l).
Proof.
  induction l as [|a l IH]; intros Hf; [done|].
  simpl. rewrite Hf by left. simpl. rewrite IH; [done|].
  intros a' Ha'. apply Hf. by right.
Qed.

Lemma matches_of_band (g : Grid) (j k : nat) :
  bitmaps_present -> 44 <= length g -> j = 30 * (k + 1) ->
  matches_of bitmaps g j = Some (entry_of g k <$> symbols).
Proof.
  intros Hb Hg ->. unfold matches_of. apply mapM_pure.
  intros ch Hch. destruct (Hb ch Hch) as (mask & Hmask & Hlen).
  rewrite (count_symbol_score g k ch mask) by done. simpl.
  unfold entry_of, score. by rewrite Hmask.
Qed.

(** The first call of the reducer always replaces the initial value. *)
Lemma pick_initial (b : entry) : pick (QFrac 0 1, None) b = b.
Proof.
  unfold pick. destruct b as [[| |n d] c]; simpl; try done.
  destruct (N.ltb_spec (n * 1) (0 * d)); [lia|done].
Qed.

Lemma pick_either (a b : entry) : pick a b = a \/ pick a b = b.
Proof. unfold pick. destruct (quotient_gt _ _); auto. Qed.

Lemma reduce_matches_in (es : list entry) :
  es <> [] -> reduce_matches es ∈ es.
Proof.
  unfold reduce_matches. destruct es as [|b es]; [done|intros _].
  simpl. rewrite pick_initial.
  assert (forall l (a : entry), foldl pick a l ∈ a :: l) as Hin.
  { induction l as [|c l IH]; intros a; simpl; [by left|].
    specialize (IH (pick a c)). apply elem_of_cons in IH as [->|IH].
    - destruct (pick_either a c) as [->| ->]; [left|right; left].
    - right; by right. }
  apply Hin.
Qed.

Lemma score_le_trans (a b c : N * N) :
  (0 < b.2)%N ->
  score_le a b -> score_le b c -> score_le a c.
Proof.
  unfold score_le. destruct a as [n1 d1], b as [n2 d2], c as [n3 d3]. simpl.
  intros Hd H1 H2.
  apply (N.mul_le_mono_pos_r _ _ d2); [done|].
  transitivity (n2 * d1 * d3)%N; [|]; nia.
Qed.

Lemma score_lt_le_trans (a b c : N * N) :
  (0 < b.2)%N -> (0 < c.2)%N ->
  score_lt a b -> score_le b c -> score_lt a c.
Proof.
  unfold score_le, score_lt. destruct a as [n1 d1], b as [n2 d2], c as [n3 d3].
  simpl. intros Hd Hd3 H1 H2.
  apply (N.mul_lt_mono_pos_r d2); [done|].
  apply N.lt_le_trans with (n2 * d1 * d3)%N; nia.
Qed.

Lemma pick_proper (a b : entry) :
  proper a -> proper b ->
  (pick a b = a /\ score_lt (frac_of b) (frac_of a))
  \/ (pick a b = b /\ score_le (frac_of a) (frac_of b)).
Proof.
  intros (n & d & Ha & Hd) (n' & d' & Hb & Hd').
  unfold pick, frac_of, score_lt, score_le. rewrite Ha, Hb. simpl.
  destruct (N.ltb_spec (n' * d) (n * d')); [left|right]; split; try done; lia.
Qed.

(** The reducer returns the last of the entries of highest score. *)
Lemma reduce_matches_last (es : list entry) :
  Forall proper es -> es <> [] ->
  exists i e, es !! i = Some e /\ reduce_matches es = e
    /\ (forall i' e', es !! i' = Some e' -> score_le (frac_of e') (frac_of e))
    /\ (forall i' e', i < i' -> es !! i' = Some e' ->
          score_lt (frac_of e') (frac_of e)).
Proof.
  unfold reduce_matches.
  induction es as [|b es IH] using rev_ind; [done|intros Hall _].
  apply Forall_app in Hall as [Hes Hb]. rewrite Forall_singleton in Hb.
  rewrite foldl_app. simpl.
  destruct (decide (es = [])) as [->|Hne].
  - simpl. rewrite pick_initial. exists 0, b. split; [done|]. split; [done|].
    split.
    + intros [|i'] e' He'; [|done]. injection He' as <-.
      unfold score_le. lia.
    + intros [|i'] e' Hlt He'; [lia|done].
  - destruct IH as (i & e & Hi & He & Hle & Hlt); [done|done|].
    assert (proper e) as Hpe.
    { eapply Forall_forall; [exact Hes|]. eapply list_elem_of_lookup_2, Hi. }
    rewrite He.
    destruct (pick_proper e b Hpe Hb) as [[-> Hgt]|[-> Hge]].
    + exists i, e. split; [by apply lookup_app_l_Some|]. split; [done|].
      split.
      * intros i' e' He'. apply lookup_app_Some in He' as [He'|[Hlen He']].
        { by eapply Hle. }
        apply list_lookup_singleton_Some in He' as [_ <-].
        unfold score_le, score_lt in *. lia.
      * intros i' e' Hii' He'. apply lookup_app_Some in He' as [He'|[Hlen He']].
        { by eapply Hlt. }
        by apply list_lookup_singleton_Some in He' as [_ <-].
    + exists (length es), b. split.
      { rewrite lookup_app_r by lia. by rewrite Nat.sub_diag. }
      split; [done|]. split.
      * intros i' e' He'. apply lookup_app_Some in He' as [He'|[Hlen He']].
        { destruct Hpe as (n & d & Hfe & Hd).
          eapply (score_le_trans _ (frac_of e)); [|by eapply Hle|done].
          unfold frac_of. by rewrite Hfe. }
        apply list_lookup_singleton_Some in He' as [_ <-].
        unfold score_le. lia.
      * intros i' e' Hii' He'. apply lookup_lt_Some in He'.
        rewrite length_app in He'. simpl in He'. lia.
Qed.

(** The entry selected in band [k] of a cleaned grid. *)
Local Abbreviation band_entry g k := (reduce_matches (entry_of g k <$> symbols)).

Lemma match_bands_entries (g : Grid) :
  bitmaps_present -> 44 <= length g ->
  match_bands bitmaps g
  = Some (foldl append_entry EmptyString ((fun k => band_entry g k) <$> seq 0 6)).
Proof.
  intros Hb Hg. unfold match_bands, bands.
  rewrite for_each_cons, (matches_of_band g 30 0) by done.
  cbn [mbind option_bind].
  rewrite for_each_cons, (matches_of_band g 60 1) by done.
  cbn [mbind option_bind].
  rewrite for_each_cons, (matches_of_band g 90 2) by done.
  cbn [mbind option_bind].
  rewrite for_each_cons, (matches_of_band g 120 3) by done.
  cbn [mbind option_bind].
  rewrite for_each_cons, (matches_of_band g 150 4) by done.
  cbn [mbind option_bind].
  rewrite for_each_cons, (matches_of_band g 180 5) by done.
  cbn [mbind option_bind]. rewrite for_each_nil.
  cbn [seq fmap list_fmap foldl]. reflexivity.
Qed.

Lemma append_entry_of (s : string) (g : Grid) (k : nat) (w : ascii) :
  append_entry s (entry_of g k w) = (s ++ String w EmptyString)%string.
Proof. done. Qed.

Lemma band_entry_symbol (g : Grid) (k : nat) :
  exists w, band_entry g k = entry_of g k w /\ w ∈ symbols.
Proof.
  assert (band_entry g k ∈ entry_of g k <$> symbols) as Hin.
  { apply reduce_matches_in. discriminate. }
  apply list_elem_of_fmap in Hin as (w & -> & Hw). by exists w.
Qed.

Lemma entry_of_proper (g : Grid) (k : nat) (ch : ascii) :
  bitmaps_ok bitmaps -> ch ∈ symbols ->
  proper (entry_of g k ch)
  /\ frac_of (entry_of g k ch) = score bitmaps g k ch.
Proof.
  intros Hb Hch. destruct (Hb ch Hch) as (mask & Hmask & _ & Hblack).
  unfold proper, frac_of, entry_of, score. rewrite Hmask. simpl.
  unfold js_div. destruct (N.eqb_spec (black_count mask) 0); [lia|].
  split; [|done]. by eexists _, _.
Qed.

Lemma entry_of_inj (g : Grid) (k : nat) (c w : ascii) :
  entry_of g k c = entry_of g k w -> c = w.
Proof.
  intros H. apply (f_equal snd) in H. unfold entry_of in H.
  cbn [snd] in H. congruence.
Qed.

Lemma band_entry_selected (g : Grid) (k : nat) (w : ascii) :
  bitmaps_ok bitmaps ->
  band_entry g k = entry_of g k w ->
  selected_last bitmaps g k w.
Proof.
  intros Hb Hw.
  destruct (reduce_matches_last (entry_of g k <$> symbols))
    as (i & e & Hi & He & Hle & Hlt).
  { apply Forall_fmap, Forall_forall. intros ch Hch.
    by apply entry_of_proper. }
  { discriminate. }
  rewrite Hw in He. subst e.
  rewrite list_lookup_fmap in Hi.
  destruct (symbols !! i) as [c|] eqn:Hc; [|discriminate Hi].
  apply (inj Some) in Hi. apply entry_of_inj in Hi. rewrite Hi in Hc. clear Hi c.
  assert (w ∈ symbols) as Hwin by (eapply list_elem_of_lookup_2; exact Hc).
  destruct (entry_of_proper g k w Hb Hwin) as [_ Hfw].
  exists i. split; [exact Hc|]. split.
  - intros i' c Hc'.
    assert (c ∈ symbols) as Hcin by (eapply list_elem_of_lookup_2; exact Hc').
    destruct (entry_of_proper g k c Hb Hcin) as [_ <-]. rewrite <- Hfw.
    apply (Hle i'). rewrite list_lookup_fmap, Hc'. reflexivity.
  - intros i' c Hii' Hc'.
    assert (c ∈ symbols) as Hcin by (eapply list_elem_of_lookup_2; exact Hc').
    destruct (entry_of_proper g k c Hb Hcin) as [_ <-]. rewrite <- Hfw.
    apply (Hlt i'); [exact Hii'|]. rewrite list_lookup_fmap, Hc'. reflexivity.
Qed.

(** On a cleaned grid of at least 44 rows the matching loop returns six
    symbols, the [k]-th being the one behind [band_entry g k]. *)
Lemma match_bands_symbols (g : Grid) :
  bitmaps_present -> 44 <= length g ->
  exists ws, match_bands bitmaps g = Some (string_of_list_ascii ws)
    /\ length ws = 6
    /\ Forall (fun w => w ∈ symbols) ws
    /\ (forall k w, ws !! k = Some w -> band_entry g k = entry_of g k w).
Proof.
  intros Hb Hg. rewrite match_bands_entries by done.
  destruct (band_entry_symbol g 0) as (w0 & E0 & I0),
    (band_entry_symbol g 1) as (w1 & E1 & I1),
    (band_entry_symbol g 2) as (w2 & E2 & I2),
    (band_entry_symbol g 3) as (w3 & E3 & I3),
    (band_entry_symbol g 4) as (w4 & E4 & I4),
    (band_entry_symbol g 5) as (w5 & E5 & I5).
  exists [w0; w1; w2; w3; w4; w5].
  cbn [seq fmap list_fmap foldl]. rewrite E0, E1, E2, E3, E4, E5.
  rewrite !append_entry_of.
  split; [reflexivity|]. split; [reflexivity|]. split.
  - repeat (apply Forall_cons; split; [assumption|]). apply Forall_nil_2.
  - intros k w Hk.
    do 6 (destruct k as [|k]; [by injection Hk as <-|]). discriminate Hk.
Qed.

End WithBitmaps.

(** C6, as amended. On a grid of at least 45 rows and with a table of
    32-row templates that each have a foreground pixel, [captcha_parse]
    returns six symbols. The symbol of band [k] (0 to 5) has the highest
    score of the band, the score of a symbol being the number of foreground
    pixels of its template that are foreground in rows 12..43 and columns
    [30 * k .. 30 * k + 29] of the cleaned grid, divided by the number of
    foreground pixels of the template. Among the symbols of highest score
    the last one of the table is selected. *)
Theorem captcha_parse_selects_last_maximum
    (bitmaps : ascii -> option Grid) (imgarr : Grid) :
  bitmaps_ok bitmaps -> 45 <= length imgarr ->
  exists cleaned ws,
    clean imgarr = Some cleaned
    /\ captcha_parse bitmaps imgarr = Some (string_of_list_ascii ws)
    /\ length ws = 6
    /\ (forall k w, ws !! k = Some w -> selected_last bitmaps cleaned k w).
Proof.
  intros Hb Hg.
  destruct (clean_ok imgarr Hg) as (cleaned & Hclean & Hlen).
  destruct (match_bands_symbols bitmaps cleaned) as (ws & Hws & Hsix & _ & Hsel).
  { by apply bitmaps_ok_present. }
  { lia. }
  exists cleaned, ws. unfold captcha_parse. rewrite Hclean. simpl.
  split; [done|]. split; [done|]. split; [done|].
  intros k w Hk. apply band_entry_selected; [done|]. by apply Hsel.
Qed.

Lemma all_black_bitmaps_ok : bitmaps_ok all_black_bitmaps.
Proof.
  intros ch _. exists (solid 32 30 0). split; [done|].
  split; [vm_compute; lia|]. vm_compute. reflexivity.
Qed.

(** The amended C6 on a blank image and all-foreground templates. *)
Lemma selects_last_maximum_witness :
  exists cleaned ws,
    clean blank_45x180 = Some cleaned
    /\ captcha_parse all_black_bitmaps blank_45x180
       = Some (string_of_list_ascii ws)
    /\ length ws = 6
    /\ (forall k w, ws !! k = Some w ->
          selected_last all_black_bitmaps cleaned k w).
Proof.
  apply (captcha_parse_selects_last_maximum all_black_bitmaps blank_45x180).
  - exact all_black_bitmaps_ok.
  - vm_compute. lia.
Defined.

(** C6 fails as it is stated: on a blank image every symbol scores 0, and
    the symbol selected is the last of the table, "Z", not the first one
    encountered, "1". *)
Lemma tie_goes_to_the_last_symbol :
  clean blank_45x180 = Some blank_45x180
  /\ score all_black_bitmaps blank_45x180 0 "1"
     = score all_black_bitmaps blank_45x180 0 "Z"
  /\ captcha_parse all_black_bitmaps blank_45x180 = Some "ZZZZZZ"
  /\ ~ selected_first all_black_bitmaps blank_45x180 0 "Z".
Proof.
  split; [vm_compute; reflexivity|].
  split; [vm_compute; reflexivity|].
  split; [vm_compute; reflexivity|].
  intros (i & Hi & _ & Hlt).
  assert (i = 33) as ->.
  { do 34 (destruct i as [|i]; [try reflexivity; discriminate Hi|]).
    discriminate Hi. }
  specialize (Hlt 0 "1"%char ltac:(lia) eq_refl).
  vm_compute in Hlt. discriminate Hlt.
Qed.

(** The cleaning pass reads row 44: on a grid of 44 rows it throws as soon
    as a foreground pixel of the last row lies under a background pixel. *)
Lemma captcha_parse_throws_on_44_rows :
  length dark_bottom_44x179 = 44
  /\ Forall (fun row => length row = 179) dark_bottom_44x179
  /\ captcha_parse all_black_bitmaps dark_bottom_44x179 = None.
Proof.
  split; [reflexivity|]. split; [|vm_compute; reflexivity].
  unfold dark_bottom_44x179, solid. apply Forall_app. split.
  - apply Forall_replicate. by rewrite length_replicate.
  - apply Forall_singleton. by rewrite length_replicate.
Qed.

End TemplateFacts.

(** ** The linear classifier *)

Module LinearFacts.
Import JS LinearClassifier LoopFacts.

Local Arguments Nat.mul _ _ : simpl never.

Lemma length_slice {A : Type} (a b : nat) (l : list A) :
  b <= length l -> length (slice a b l) = b - a.
Proof. intros Hb. unfold slice. rewrite length_take, length_drop. lia. Qed.

Lemma length_image_rows (sat : list intensity) :
  length (image_rows sat) = 40.
Proof. unfold image_rows. by rewrite length_fmap, length_seq. Qed.

Lemma image_rows_row (sat : list intensity) (row : list intensity) :
  row ∈ image_rows sat -> length row = 200.
Proof.
  unfold image_rows. intros Hin.
  apply list_elem_of_fmap in Hin as (i & -> & _).
  by rewrite length_fmap, length_seq.
Qed.

(** Whatever the data, every cell has 22 rows of 24 entries. *)
Lemma cell_block_shape (sat : list intensity) (i : nat) :
  i < 6 ->
  length (cell_block (image_rows sat) i) = 22
  /\ Forall (fun row => length row = 24) (cell_block (image_rows sat) i).
Proof.
  intros Hi. unfold cell_block.
  assert (i mod 2 < 2) as Hm by (apply Nat.mod_upper_bound; lia).
  assert ((i + 1) mod 2 < 2) as Hm' by (apply Nat.mod_upper_bound; lia).
  assert ((i + 1) mod 2 = 1 - i mod 2) as Hpar.
  { do 6 (destruct i as [|i]; [done|]). lia. }
  split.
  - rewrite length_fmap, length_slice by (rewrite length_image_rows; lia). lia.
  - apply Forall_fmap, Forall_forall. intros row Hrow. simpl.
    assert (row ∈ image_rows sat) as Hin.
    { unfold slice in Hrow. by eapply subseteq_drop, subseteq_take. }
    rewrite length_slice by (rewrite (image_rows_row sat row Hin); lia). lia.
Qed.

Lemma length_bind_const {A B : Type} (f : A -> list B) (n : nat) (l : list A) :
  (forall a, a ∈ l -> length (f a) = n) -> length (l ≫= f) = length l * n.
Proof.
  induction l as [|a l IH]; intros Hf; [done|].
  change ((a :: l) ≫= f) with (f a ++ (l ≫= f)).
  rewrite length_app, Hf, IH; [simpl; lia| |by left].
  intros a' Ha'. apply Hf. by right.
Qed.

Lemma length_flatten (arr : list (list float)) :
  length (flatten arr) = length arr * length (default [] (arr !! 0)).
Proof.
  unfold flatten. rewrite (length_bind_const _ (length (default [] (arr !! 0)))).
  - by rewrite length_seq.
  - intros i _. rewrite (length_bind_const _ 1); [rewrite length_seq; lia|done].
Qed.

Lemma length_pre_img (img : list (list intensity)) :
  length (pre_img img) = length img.
Proof. unfold pre_img. by rewrite length_fmap. Qed.

Lemma pre_img_first_row (img : list (list intensity)) :
  length (default [] (pre_img img !! 0)) = length (default [] (img !! 0)).
Proof.
  unfold pre_img. rewrite list_lookup_fmap.
  destruct (img !! 0) as [row|]; simpl; [|done].
  by rewrite length_fmap, length_seq.
Qed.

(** The input of the matrix product has 528 entries. *)
Lemma length_flat_cell (sat : list intensity) (i : nat) :
  i < 6 ->
  length (flatten (pre_img (cell_block (image_rows sat) i))) = 528.
Proof.
  intros Hi. destruct (cell_block_shape sat i Hi) as [Hrows Hcols].
  rewrite length_flatten, length_pre_img, pre_img_first_row, Hrows.
  destruct (cell_block (image_rows sat) i) as [|row rest]; [done|].
  simpl. apply Forall_cons in Hcols as [-> _]. done.
Qed.

(** The product of a one-row matrix with a matrix that has a row for
    each of its entries does not throw, and has one row, as long as the
    first row of the right operand. *)
Lemma mat_mul_row (flat : list float) (b : list (list float)) (b0 : list float) :
  b !! 0 = Some b0 -> length flat <= length b ->
  exists row, mat_mul [flat] b = Some [row] /\ length row = length b0.
Proof.
  intros Hb0 Hlen. unfold mat_mul. rewrite Hb0. simpl.
  assert (exists row,
    mapM (fun j =>
      for_each (seq 0 (length flat))
        (fun acc k => bk ← b !! k;
                      Some (acc + number_at flat k * number_at bk j)%float)
        zero) (seq 0 (length b0)) = Some row /\ length row = length b0)
    as (row & -> & Hrow).
  { destruct (mapM_is_Some_2 (fun j =>
      for_each (seq 0 (length flat))
        (fun acc k => bk ← b !! k;
                      Some (acc + number_at flat k * number_at bk j)%float)
        zero) (seq 0 (length b0))) as [row Hrow].
    - apply Forall_forall. intros j _. simpl.
      destruct (for_each_inv (fun _ : float => True) (seq 0 (length flat))
        (fun acc k => bk ← b !! k;
                      Some (acc + number_at flat k * number_at bk j)%float))
        with (s := zero) as (r & -> & _); [|done|done].
      intros acc k Hk _. apply elem_of_seq in Hk.
      destruct (lookup_lt_is_Some_2 b k) as [bk ->]; [lia|]. simpl. eauto.
    - exists row. split; [done|].
      apply length_mapM in Hrow. by rewrite length_seq in Hrow. }
  simpl. by exists row.
Qed.

Section WithModel.

Variable Math_exp : float -> float.
Variable weights : list (list float).
Variable biases : list float.

Local Abbreviation model_ok := (model_ok weights).

Lemma length_max_soft (a : list float) :
  length (max_soft Math_exp a) = length a.
Proof. unfold max_soft. by rewrite length_fmap. Qed.

Lemma length_mat_add (a b : list float) : length (mat_add a b) = length a.
Proof. unfold mat_add. by rewrite length_fmap, length_seq. Qed.

(** With such a model, the vector of a cell is there, and has one entry
    for each column of the weights. *)
Lemma cell_probs_ok (sat : list intensity) (i : nat) :
  model_ok -> i < 6 ->
  exists probs,
    cell_probs Math_exp weights biases (cell_block (image_rows sat) i)
    = Some probs
    /\ length probs = length (default [] (weights !! 0)).
Proof.
  intros Hm Hi. unfold cell_probs.
  destruct (lookup_lt_is_Some_2 weights 0) as [b0 Hb0];
    [unfold model_ok in Hm; lia|].
  destruct (mat_mul_row (flatten (pre_img (cell_block (image_rows sat) i)))
    weights b0) as (row & -> & Hrow); [done| |].
  { rewrite length_flat_cell by done. exact Hm. }
  simpl. eexists. split; [done|].
  by rewrite length_max_soft, length_mat_add, Hrow, Hb0.
Qed.

Lemma saturation_blocks (d : list N) (i : nat) :
  length d mod 4 = 0 -> i < 6 ->
  exists sat, saturate d = Some sat
    /\ saturation d = Some (cell_block (image_rows sat) <$> seq 0 6)
    /\ (cell_block (image_rows sat) <$> seq 0 6) !! i
       = Some (cell_block (image_rows sat) i).
Proof.
  intros Hd Hi. unfold saturation, saturate. rewrite Hd.
  change (0 =? 0) with true. cbn [mbind option_bind].
  eexists. split; [reflexivity|]. split; [reflexivity|].
  rewrite list_lookup_fmap, lookup_seq_lt by done. done.
Qed.

(** The classification loop appends one piece per cell. *)
Lemma classify_cells_pieces (d : list N) :
  model_ok -> length d mod 4 = 0 ->
  exists sat idx, saturation d = Some (cell_block (image_rows sat) <$> seq 0 6)
    /\ (forall i, i < 6 ->
          cell_index Math_exp weights biases (cell_block (image_rows sat) i)
          = Some (idx i))
    /\ classify_cells Math_exp weights biases
         (cell_block (image_rows sat) <$> seq 0 6)
       = Some (label_at (idx 0) ++ label_at (idx 1) ++ label_at (idx 2)
               ++ label_at (idx 3) ++ label_at (idx 4) ++ label_at (idx 5))%string.
Proof.
  intros Hm Hd.
  destruct (saturation_blocks d 0 Hd) as (sat & _ & Hsat & _); [lia|].
  exists sat.
  exists (fun i => default 0%Z
    (cell_index Math_exp weights biases (cell_block (image_rows sat) i))).
  assert (forall i, i < 6 ->
    cell_index Math_exp weights biases (cell_block (image_rows sat) i)
    = Some (default 0%Z
       (cell_index Math_exp weights biases (cell_block (image_rows sat) i))))
    as Hidx.
  { intros i Hi. unfold cell_index.
    destruct (cell_probs_ok sat i Hm Hi) as (probs & -> & _). done. }
  split; [done|]. split; [done|].
  unfold classify_cells.
  assert (forall i, i < 6 ->
    (cell_block (image_rows sat) <$> seq 0 6) !! i
    = Some (cell_block (image_rows sat) i)) as Hblock.
  { intros i Hi. rewrite list_lookup_fmap, lookup_seq_lt by done. done. }
  set (bls := cell_block (image_rows sat) <$> seq 0 6) in *.
  change (seq 0 6) with [0; 1; 2; 3; 4; 5].
  rewrite for_each_cons; cbv beta; rewrite Hblock by lia;
    cbn [mbind option_bind]; rewrite (Hidx 0) by lia; cbn [mbind option_bind].
  rewrite for_each_cons; cbv beta; rewrite Hblock by lia;
    cbn [mbind option_bind]; rewrite (Hidx 1) by lia; cbn [mbind option_bind].
  rewrite for_each_cons; cbv beta; rewrite Hblock by lia;
    cbn [mbind option_bind]; rewrite (Hidx 2) by lia; cbn [mbind option_bind].
  rewrite for_each_cons; cbv beta; rewrite Hblock by lia;
    cbn [mbind option_bind]; rewrite (Hidx 3) by lia; cbn [mbind option_bind].
  rewrite for_each_cons; cbv beta; rewrite Hblock by lia;
    cbn [mbind option_bind]; rewrite (Hidx 4) by lia; cbn [mbind option_bind].
  rewrite for_each_cons; cbv beta; rewrite Hblock by lia;
    cbn [mbind option_bind]; rewrite (Hidx 5) by lia; cbn [mbind option_bind].
  rewrite for_each_nil. f_equal.
  cbn [String.append]. by rewrite !StringFacts.append_assoc.
Qed.

(** *** The arg-max index *)

Lemma index_from_found (i : Z) (l : list float) (m : float) :
  (exists x, x ∈ l /\ (x =? m)%float = true) ->
  (i <= index_from i l m < i + Z.of_nat (length l))%Z.
Proof.
  revert i. induction l as [|y l IH]; intros i (x & Hx & Hxm).
  - by apply elem_of_nil in Hx.
  - simpl. destruct (y =? m)%float eqn:Hy; [lia|].
    apply elem_of_cons in Hx as [->|Hx]; [congruence|].
    specialize (IH (i + 1)%Z (ex_intro _ x (conj Hx Hxm))). lia.
Qed.

Lemma eqb_self (x : float) : is_nan x = false -> (x =? x)%float = true.
Proof. unfold is_nan. by destruct (x =? x)%float. Qed.

(** A number that is not above minus infinity is minus infinity. *)
Lemma neg_infinity_least (x : float) :
  is_nan x = false -> (neg_infinity <? x)%float = false ->
  (x =? neg_infinity)%float = true.
Proof.
  unfold is_nan. rewrite !FloatAxioms.eqb_spec, FloatAxioms.ltb_spec.
  change (Prim2SF neg_infinity) with (S754_infinity true).
  destruct (Prim2SF x) as [sx|sx| |sx mx ex]; simpl; try discriminate;
    destruct sx; simpl; try discriminate; reflexivity.
Qed.

(** On numbers, [Math.max] keeps either the highest so far or the new
    number. *)
Lemma max_step_either (highest x : float) :
  is_nan highest = false -> is_nan x = false ->
  (max_step highest x = highest /\ (highest <? x)%float = false)
  \/ max_step highest x = x.
Proof.
  intros Hh Hx. unfold max_step. rewrite Hh, Hx. simpl.
  destruct (highest <? x)%float; [by right|].
  destruct (classify highest), (classify x); auto.
Qed.

(** The maximum of a non-empty list of numbers is, up to [===], one of
    them. *)
Lemma math_max_attained (l : list float) :
  l <> [] -> Forall (fun x => is_nan x = false) l ->
  exists x, x ∈ l /\ (x =? math_max l)%float = true.
Proof.
  intros Hne Hl. unfold math_max.
  assert (forall seen rest acc,
    Forall (fun x => is_nan x = false) rest ->
    is_nan acc = false ->
    (acc ∈ seen
     \/ (acc = neg_infinity
         /\ Forall (fun y => (y =? neg_infinity)%float = true) seen)) ->
    let r := foldl max_step acc rest in
    is_nan r = false
    /\ (r ∈ seen ++ rest
        \/ (r = neg_infinity
            /\ Forall (fun y => (y =? neg_infinity)%float = true)
                 (seen ++ rest)))) as Hinv.
  { intros seen rest. revert seen.
    induction rest as [|x rest IH]; intros seen acc Hrest Hacc Hseen; simpl.
    - by rewrite app_nil_r.
    - apply Forall_cons in Hrest as [Hx Hrest].
      replace (seen ++ x :: rest) with ((seen ++ [x]) ++ rest)
        by (by rewrite <- app_assoc).
      destruct (max_step_either acc x Hacc Hx) as [[-> Hlt]| ->].
      + apply IH; [done|done|].
        destruct Hseen as [Hin|[-> Hall]].
        * left. apply elem_of_app. by left.
        * right. split; [done|]. apply Forall_app. split; [done|].
          apply Forall_singleton. by apply neg_infinity_least.
      + apply IH; [done|done|]. left. apply elem_of_app. right. by left. }
  destruct (Hinv [] l neg_infinity Hl) as [Hnan Hr]; [done| |].
  { right. split; [done|]. apply Forall_nil_2. }
  simpl in Hr. destruct Hr as [Hin|[Heq Hall]].
  - exists (foldl max_step neg_infinity l). split; [done|]. by apply eqb_self.
  - destruct l as [|x l]; [done|]. exists x. split; [by left|].
    rewrite Heq. by apply Forall_cons in Hall as [? _].
Qed.

(** The index of the maximum of a non-empty vector of numbers lies
    within the vector. *)
Lemma argmax_in_range (probs : list float) :
  probs <> [] -> Forall (fun x => is_nan x = false) probs ->
  (0 <= indexOf probs (math_max probs) < Z.of_nat (length probs))%Z.
Proof.
  intros Hne Hnum. unfold indexOf.
  pose proof (index_from_found 0 probs (math_max probs)
    (math_max_attained probs Hne Hnum)). lia.
Qed.

(** A piece of the output is a symbol of the table exactly when the index
    lies within the table. *)
Lemma label_at_symbol (idx : Z) :
  (0 <= idx < 32)%Z ->
  exists c, label_at idx = String c EmptyString
    /\ c ∈ list_ascii_of_string label_txt.
Proof.
  intros Hidx. unfold label_at.
  destruct (Z.leb_spec 0 idx) as [_|]; [|lia].
  assert (Z.to_nat idx < 32) as Hn by lia.
  destruct (String.get (Z.to_nat idx) label_txt) as [c|] eqn:Hget.
  - exists c. split; [done|]. by eapply StringFacts.get_elem_of.
  - exfalso. revert Hget Hn. generalize (Z.to_nat idx) as n. intros n.
    do 32 (destruct n as [|n]; [discriminate|]). lia.
Qed.

Lemma label_at_outside (idx : Z) :
  ~ (0 <= idx < 32)%Z -> label_at idx = "undefined".
Proof.
  intros Hidx. unfold label_at.
  destruct (Z.leb_spec 0 idx) as [Hpos|]; [|done].
  assert (32 <= Z.to_nat idx) as Hn by lia.
  revert Hn. generalize (Z.to_nat idx) as n. intros n Hn.
  do 32 (destruct n as [|n]; [lia|]). done.
Qed.

(** The six pieces are six symbols of the table when every index lies
    within the table. *)
Lemma six_labels (idx : nat -> Z) :
  (forall i, i < 6 -> (0 <= idx i < 32)%Z) ->
  exists cs,
    (label_at (idx 0) ++ label_at (idx 1) ++ label_at (idx 2)
     ++ label_at (idx 3) ++ label_at (idx 4) ++ label_at (idx 5))%string
    = string_of_list_ascii cs
    /\ length cs = 6
    /\ Forall (fun c => c ∈ list_ascii_of_string label_txt) cs.
Proof.
  intros Hidx.
  destruct (label_at_symbol (idx 0)) as (c0 & -> & I0); [apply Hidx; lia|].
  destruct (label_at_symbol (idx 1)) as (c1 & -> & I1); [apply Hidx; lia|].
  destruct (label_at_symbol (idx 2)) as (c2 & -> & I2); [apply Hidx; lia|].
  destruct (label_at_symbol (idx 3)) as (c3 & -> & I3); [apply Hidx; lia|].
  destruct (label_at_symbol (idx 4)) as (c4 & -> & I4); [apply Hidx; lia|].
  destruct (label_at_symbol (idx 5)) as (c5 & -> & I5); [apply Hidx; lia|].
  exists [c0; c1; c2; c3; c4; c5].
  split; [reflexivity|]. split; [reflexivity|].
  repeat (apply Forall_cons; split; [assumption|]). apply Forall_nil_2.
Qed.

(** The classifier on the data of a canvas: what it returns, and that it
    consists of six symbols of the table when the model has between 1 and
    32 classes and no soft-max vector holds a NaN. *)
Lemma classify_data (d : list N) :
  model_ok -> length d mod 4 = 0 ->
  exists out,
    saturation d ≫= classify_cells Math_exp weights biases = Some out
    /\ (1 <= length (default [] (weights !! 0)) <= 32 ->
        (forall bls block probs,
           saturation d = Some bls -> block ∈ bls ->
           cell_probs Math_exp weights biases block = Some probs ->
           Forall (fun x => is_nan x = false) probs) ->
        exists cs, out = string_of_list_ascii cs
          /\ length cs = 6
          /\ Forall (fun c => c ∈ list_ascii_of_string label_txt) cs).
Proof.
  intros Hm Hd.
  destruct (classify_cells_pieces d Hm Hd) as (sat & idx & Hsat & Hidx & Hout).
  rewrite Hsat. cbn [mbind option_bind]. rewrite Hout.
  eexists. split; [reflexivity|].
  intros Hclasses Hnum. apply six_labels. intros i Hi.
  specialize (Hidx i Hi). unfold cell_index in Hidx.
  destruct (cell_probs_ok sat i Hm Hi) as (probs & Hprobs & Hlen).
  rewrite Hprobs in Hidx. cbn [mbind option_bind] in Hidx.
  injection Hidx as <-.
  assert (Forall (fun x => is_nan x = false) probs) as Hp.
  { apply (Hnum _ (cell_block (image_rows sat) i) probs eq_refl); [|done].
    apply list_elem_of_fmap. exists i. split; [done|].
    apply elem_of_seq. lia. }
  assert (probs <> []) as Hne.
  { intros ->. simpl in Hlen. lia. }
  pose proof (argmax_in_range probs Hne Hp). lia.
Qed.

End WithModel.

(** [solveCaptchaFromBase64] returns [null] when the string has no comma
    and when the picture does not load. *)
Lemma solveCaptchaFromBase64_null
    (Math_exp : float -> float) (weights : list (list float))
    (biases : list float) (loadImage : string -> option Image)
    (drawn : Image -> nat -> nat -> list N) (base64String : string) :
  (split_comma_1 base64String = None
   \/ exists imageData, split_comma_1 base64String = Some imageData
        /\ loadImage imageData = None) ->
  solveCaptchaFromBase64 Math_exp weights biases loadImage drawn base64String
  = None.
Proof.
  unfold solveCaptchaFromBase64.
  intros [->|(imageData & -> & Hload)]; [done|].
  cbn [mbind option_bind]. by rewrite Hload.
Qed.

(** What [solveCaptchaFromBase64] returns for a picture that loads. *)
Lemma solveCaptchaFromBase64_loaded
    (Math_exp : float -> float) (weights : list (list float))
    (biases : list float) (loadImage : string -> option Image)
    (drawn : Image -> nat -> nat -> list N)
    (base64String imageData : string) (img : Image) :
  split_comma_1 base64String = Some imageData ->
  loadImage imageData = Some img ->
  solveCaptchaFromBase64 Math_exp weights biases loadImage drawn base64String
  = saturation (drawn img WIDTH HEIGHT)
      ≫= classify_cells Math_exp weights biases.
Proof.
  intros Hsplit Hload. unfold solveCaptchaFromBase64.
  rewrite Hsplit. cbn [mbind option_bind]. rewrite Hload. reflexivity.
Qed.

(** C1, as amended. [solveCaptchaFromBase64] never looks at the
    resolution of the picture: whatever its [naturalWidth] and
    [naturalHeight], a picture that loads is drawn, scaled, onto the canvas
    of 200 by 40, and the function returns the classification of the data
    of that canvas, not [null]. *)
Theorem solveCaptchaFromBase64_any_resolution
    (Math_exp : float -> float) (weights : list (list float))
    (biases : list float) (loadImage : string -> option Image)
    (drawn : Image -> nat -> nat -> list N)
    (base64String imageData : string) (img : Image) :
  model_ok weights ->
  split_comma_1 base64String = Some imageData ->
  loadImage imageData = Some img ->
  length (drawn img WIDTH HEIGHT) = 4 * WIDTH * HEIGHT ->
  exists out,
    solveCaptchaFromBase64 Math_exp weights biases loadImage drawn
      base64String = Some out
    /\ saturation (drawn img WIDTH HEIGHT)
         ≫= classify_cells Math_exp weights biases = Some out.
Proof.
  intros Hm Hsplit Hload Hlen.
  destruct (classify_data Math_exp weights biases (drawn img WIDTH HEIGHT))
    as (out & Hout & _); [done|by rewrite Hlen|].
  exists out. split; [|done].
  by rewrite (solveCaptchaFromBase64_loaded _ _ _ _ _ _ imageData img).
Qed.

Lemma length_draw_uniform (img : Image) (w h : nat) :
  4 <= length (pixels img) -> length (draw_uniform img w h) = w * h * 4.
Proof.
  intros Hp. unfold draw_uniform.
  generalize (w * h) as n. intros n. induction n as [|n IH]; [done|].
  cbn [replicate concat]. rewrite length_app, length_take, IH. lia.
Qed.

(** The amended C1 on a picture of one pixel. *)
Lemma any_resolution_witness :
  exists out,
    solveCaptchaFromBase64 exp_near_zero zero_weights zero_biases
      (fun _ => Some red_pixel_image) draw_uniform
      "data:image/jpeg;base64,AAAA" = Some out
    /\ saturation (draw_uniform red_pixel_image WIDTH HEIGHT)
         ≫= classify_cells exp_near_zero zero_weights zero_biases
       = Some out.
Proof.
  apply (solveCaptchaFromBase64_any_resolution exp_near_zero zero_weights
    zero_biases (fun _ => Some red_pixel_image) draw_uniform
    "data:image/jpeg;base64,AAAA" "AAAA" red_pixel_image).
  - unfold model_ok, zero_weights. rewrite length_replicate. lia.
  - reflexivity.
  - reflexivity.
  - rewrite length_draw_uniform by (simpl; lia). unfold WIDTH, HEIGHT. lia.
Defined.

(** *** A canvas of a single colour *)

Lemma fmap_seq_const {A : Type} (f : nat -> A) (v : A) (start n : nat) :
  (forall k, start <= k < start + n -> f k = v) ->
  f <$> seq start n = replicate n v.
Proof.
  revert start. induction n as [|n IH]; intros start Hf; [done|].
  cbn [seq fmap list_fmap replicate]. f_equal.
  - apply Hf. lia.
  - apply IH. intros k Hk. apply Hf. lia.
Qed.

Lemma lookup_uniform (px : list N) (n k j : nat) :
  length px = 4 -> k < n -> j < 4 ->
  concat (replicate n px) !! (4 * k + j) = px !! j.
Proof.
  intros Hpx. revert k. induction n as [|n IH]; intros k Hk Hj; [lia|].
  cbn [replicate concat]. destruct k as [|k].
  - rewrite lookup_app_l by lia. by rewrite Nat.mul_0_r.
  - rewrite lookup_app_r by lia. rewrite Hpx.
    replace (4 * S k + j - 4) with (4 * k + j) by lia. apply IH; lia.
Qed.

Lemma length_uniform (px : list N) (n : nat) :
  length px = 4 -> length (concat (replicate n px)) = n * 4.
Proof.
  intros Hpx. induction n as [|n IH]; [done|].
  cbn [replicate concat]. rewrite length_app, IH. lia.
Qed.

(** The saturation array of a canvas filled with the colour [(r, g, b)]. *)
Lemma saturate_uniform (r g b a : N) (n : nat) :
  saturate (concat (replicate n [r; g; b; a]))
  = Some (replicate n
      (math_round_div ((N.max r (N.max g b) - N.min r (N.min g b)) * 255)
         (N.max r (N.max g b)))).
Proof.
  unfold saturate. rewrite length_uniform by done.
  rewrite Nat.Div0.mod_mul, Nat.div_mul by done.
  change (0 =? 0) with true. cbv iota. f_equal.
  apply fmap_seq_const. intros k Hk. unfold saturate_pixel.
  pose proof (lookup_uniform [r; g; b; a] n k 0 eq_refl) as H0.
  pose proof (lookup_uniform [r; g; b; a] n k 1 eq_refl) as H1.
  pose proof (lookup_uniform [r; g; b; a] n k 2 eq_refl) as H2.
  rewrite Nat.add_0_r in H0.
  rewrite H0, H1, H2 by lia. reflexivity.
Qed.

Lemma image_rows_uniform (v : intensity) :
  image_rows (replicate (200 * 40) v) = replicate 40 (replicate 200 v).
Proof.
  unfold image_rows. apply fmap_seq_const. intros i Hi.
  apply fmap_seq_const. intros j Hj.
  rewrite lookup_replicate_2 by nia. done.
Qed.

Lemma slice_replicate {A : Type} (a b n : nat) (x : A) :
  b <= n -> slice a b (replicate n x) = replicate (b - a) x.
Proof.
  intros Hb. unfold slice. rewrite drop_replicate, take_replicate.
  f_equal. lia.
Qed.

Lemma cell_block_uniform (v : intensity) (i : nat) :
  i < 6 ->
  cell_block (replicate 40 (replicate 200 v)) i
  = replicate 22 (replicate 24 v).
Proof.
  intros Hi. unfold cell_block.
  assert (i mod 2 < 2) as Hm by (apply Nat.mod_upper_bound; lia).
  assert ((i + 1) mod 2 = 1 - i mod 2) as Hpar.
  { do 6 (destruct i as [|i]; [done|]). lia. }
  rewrite slice_replicate by lia. rewrite fmap_replicate.
  rewrite slice_replicate by lia.
  replace (35 - 5 * ((i + 1) mod 2) - (7 + 5 * (i mod 2) + 1)) with 22 by lia.
  replace ((i + 2) * 25 + 1 - ((i + 1) * 25 + 2)) with 24 by lia.
  done.
Qed.

(** On a canvas filled with red, every entry of every cell is 255. *)
Lemma red_canvas_saturation :
  saturation (draw_uniform red_pixel_image WIDTH HEIGHT)
  = Some (replicate 6 (replicate 22 (replicate 24 (Some 255%N)))).
Proof.
  unfold saturation, draw_uniform, WIDTH, HEIGHT.
  change (take 4 (pixels red_pixel_image)) with [255; 0; 0; 255]%N.
  rewrite saturate_uniform. cbn [mbind option_bind].
  change (math_round_div _ _) with (Some 255%N).
  rewrite image_rows_uniform.
  change (seq 0 6) with [0; 1; 2; 3; 4; 5]. cbn [fmap list_fmap].
  rewrite !cell_block_uniform by lia. reflexivity.
Qed.

(** With the zero model every such cell gets the index 0, from 32
    probabilities of 1/32. *)
Lemma red_cell_probs :
  exists probs,
    cell_probs exp_near_zero zero_weights zero_biases
      (replicate 22 (replicate 24 (Some 255%N))) = Some probs
    /\ Forall (fun x => is_nan x = false) probs
    /\ indexOf probs (math_max probs) = 0%Z.
Proof.
  eexists. split; [vm_compute; reflexivity|]. split; [|vm_compute; reflexivity].
  repeat (apply Forall_cons; split; [vm_compute; reflexivity|]).
  apply Forall_nil_2.
Qed.

Lemma red_cell_index :
  cell_index exp_near_zero zero_weights zero_biases
    (replicate 22 (replicate 24 (Some 255%N))) = Some 0%Z.
Proof.
  unfold cell_index. destruct red_cell_probs as (probs & -> & _ & Hidx).
  cbn [mbind option_bind]. by rewrite Hidx.
Qed.

(** Six such cells are classified as six times the first label. *)
Lemma red_cells_classified :
  Some (replicate 6 (replicate 22 (replicate 24 (Some 255%N))))
    ≫= classify_cells exp_near_zero zero_weights zero_biases
  = Some "AAAAAA".
Proof.
  rewrite bind_Some. unfold classify_cells.
  change (seq 0 6) with [0; 1; 2; 3; 4; 5].
  do 6 (rewrite for_each_cons; cbv beta; rewrite lookup_replicate_2 by lia;
        rewrite bind_Some; cbv beta; rewrite red_cell_index;
        rewrite bind_Some; cbv beta; rewrite bind_Some).
  rewrite for_each_nil. reflexivity.
Qed.

(** C1 fails as it is stated: a picture of 1 by 1 is not rejected, it is
    classified like any other. *)
Lemma one_pixel_picture_is_classified :
  (naturalWidth red_pixel_image, naturalHeight red_pixel_image) = (1, 1)
  /\ (WIDTH, HEIGHT) = (200, 40)
  /\ solveCaptchaFromBase64 exp_near_zero zero_weights zero_biases
       (fun _ => Some red_pixel_image) draw_uniform
       "data:image/jpeg;base64,AAAA"
     = Some "AAAAAA".
Proof.
  split; [reflexivity|]. split; [reflexivity|].
  rewrite (solveCaptchaFromBase64_loaded _ _ _ _ _ _ "AAAA" red_pixel_image)
    by reflexivity.
  rewrite red_canvas_saturation. exact red_cells_classified.
Qed.

(** A black pixel has no saturation: the entry is NaN. Any other pixel
    has one between 0 and 255. *)
Lemma saturate_pixel_cases (d : list N) (i : nat) (r g b : N) :
  d !! i = Some r -> d !! (i + 1) = Some g -> d !! (i + 2) = Some b ->
  (r = 0%N /\ g = 0%N /\ b = 0%N /\ saturate_pixel d i = None)
  \/ ((0 < N.max r (N.max g b))%N
      /\ exists v, saturate_pixel d i = Some v /\ (v <= 255)%N).
Proof.
  intros Hr Hg Hb. unfold saturate_pixel. rewrite Hr, Hg, Hb.
  cbn [mbind option_bind]. unfold math_round_div.
  destruct (N.eqb_spec (N.max r (N.max g b)) 0) as [Hz|Hnz].
  - left. repeat split; lia.
  - right. split; [lia|]. eexists. split; [done|].
    set (M := N.max r (N.max g b)) in *.
    set (m := N.min r (N.min g b)).
    assert (m <= M)%N by (unfold m, M; lia).
    apply N.lt_succ_r. apply N.Div0.div_lt_upper_bound. nia.
Qed.

(** C10. For the pixel number [k] of the data, with channels [r], [g] and
    [b]: when the three channels are 0, the entry of [saturate] is NaN, and
    so is the entry of the grid that is read from it; [(max - min) * 255]
    is divided by [max = 0] without a guard. For every other pixel the
    entry is an integer between 0 and 255. *)
Theorem black_pixel_saturation_is_nan (d : list N) (k : nat) (r g b : N) :
  length d mod 4 = 0 ->
  d !! (4 * k) = Some r -> d !! (4 * k + 1) = Some g ->
  d !! (4 * k + 2) = Some b ->
  exists sat, saturate d = Some sat
    /\ (r = 0%N -> g = 0%N -> b = 0%N ->
        sat !! k = Some None
        /\ (k < 200 * 40 ->
            exists row, image_rows sat !! (k / 200) = Some row
              /\ row !! (k mod 200) = Some None))
    /\ ((0 < N.max r (N.max g b))%N ->
        exists v, sat !! k = Some (Some v) /\ (v <= 255)%N).
Proof.
  intros Hd Hr Hg Hb. unfold saturate. rewrite Hd.
  change (0 =? 0) with true. cbv iota.
  set (sat := (fun k0 => saturate_pixel d (4 * k0)) <$> seq 0 (length d / 4)).
  exists sat. split; [reflexivity|].
  assert (k < length d / 4) as Hk.
  { apply lookup_lt_Some in Hb.
    pose proof (Nat.div_mod_eq (length d) 4). lia. }
  assert (sat !! k = Some (saturate_pixel d (4 * k))) as Hsat.
  { unfold sat. rewrite list_lookup_fmap, lookup_seq_lt by done. done. }
  clearbody sat.
  destruct (saturate_pixel_cases d (4 * k) r g b Hr Hg Hb)
    as [(-> & -> & -> & Hnan)|(Hpos & v & Hv & Hle)].
  - split; [|intros Hpos; vm_compute in Hpos; discriminate Hpos].
    intros _ _ _. rewrite Hsat, Hnan. split; [done|].
    intros Hk'. unfold image_rows.
    assert (k / 200 < 40) as Hrow by (apply Nat.Div0.div_lt_upper_bound; lia).
    assert (k mod 200 < 200) as Hcol by (apply Nat.mod_upper_bound; lia).
    eexists. split.
    + rewrite list_lookup_fmap, lookup_seq_lt by done. reflexivity.
    + rewrite list_lookup_fmap, lookup_seq_lt by done.
      cbn [fmap option_fmap option_map Nat.add].
      replace (k / 200 * 200 + k mod 200) with k
        by (pose proof (Nat.div_mod_eq k 200); lia).
      by rewrite Hsat, Hnan.
  - split; [intros -> -> ->; vm_compute in Hpos; discriminate Hpos|].
    intros _. exists v. by rewrite Hsat, Hv.
Qed.

(** C10 on a single black pixel. *)
Lemma black_pixel_witness :
  exists sat, saturate [0; 0; 0; 255]%N = Some sat /\ sat !! 0 = Some None.
Proof.
  destruct (black_pixel_saturation_is_nan [0; 0; 0; 255]%N 0 0%N 0%N 0%N
    eq_refl eq_refl eq_refl eq_refl) as (sat & Hsat & Hblack & _).
  exists sat. split; [exact Hsat|]. apply Hblack; reflexivity.
Defined.

End LinearFacts.

(** ** The login orchestrator *)

Module LoginFacts.
Import Login.

Lemma fetches_app (l1 l2 : list Event) :
  fetches (l1 ++ l2) = fetches l1 + fetches l2.
Proof. unfold fetches. by rewrite filter_app, length_app. Qed.

Lemma submits_app (l1 l2 : list Event) :
  submits (l1 ++ l2) = submits l1 + submits l2.
Proof. unfold submits. by rewrite filter_app, length_app. Qed.

Lemma fetches_gets (k : nat) : fetches (replicate k EvGet) = k.
Proof. induction k as [|k IH]; [done|]. unfold fetches in *. simpl. by rewrite IH. Qed.

Lemma submits_gets (k : nat) : submits (replicate k EvGet) = 0.
Proof. induction k as [|k IH]; [done|]. unfold submits in *. by simpl. Qed.

(** A body that carries a marker is not the empty string. *)
Lemma includes_truthy (needle html : string) :
  needle <> EmptyString -> includes needle html = true ->
  truthy (Some html) = true.
Proof.
  intros Hne Hin. destruct html; [|done].
  destruct needle; [done|]. simpl in Hin. discriminate Hin.
Qed.

Lemma check_credentials (html : string) :
  includes "Invalid LoginId/Password" html = true ->
  checkResponseForErrors html = Some credentials.
Proof.
  intros H. unfold checkResponseForErrors.
  rewrite (includes_truthy "Invalid LoginId/Password" html) by done.
  simpl. by rewrite H.
Qed.

Lemma check_captcha (html : string) :
  includes "Invalid LoginId/Password" html = false ->
  includes "Invalid Captcha" html = true ->
  checkResponseForErrors html = Some captcha.
Proof.
  intros H1 H2. unfold checkResponseForErrors.
  rewrite (includes_truthy "Invalid Captcha" html) by done.
  simpl. by rewrite H1, H2.
Qed.

Lemma check_clean (html : string) :
  includes "Invalid LoginId/Password" html = false ->
  includes "Invalid Captcha" html = false ->
  checkResponseForErrors html = None.
Proof.
  intros H1 H2. unfold checkResponseForErrors.
  destruct (negb (truthy (Some html))); [done|]. by rewrite H1, H2.
Qed.

Section WithCollaborators.

Variable solveCaptchaFromBase64 : string -> option string.
Variable encodeURIComponent : string -> string.
Variable remote : Remote.

Local Abbreviation fetch_attempts := (fetch_attempts solveCaptchaFromBase64 remote).
Local Abbreviation fetchWithSession := (fetchWithSession solveCaptchaFromBase64 remote).
Local Abbreviation login_rounds :=
  (login_rounds solveCaptchaFromBase64 encodeURIComponent remote).
Local Abbreviation challenge_of := (challenge_of solveCaptchaFromBase64).
Local Abbreviation always_rejects := (always_rejects remote).
Local Abbreviation never_captcha := (never_captcha remote).

(** A fetch only fetches: it adds between 0 and [n] requests for the
    login page to the log, and at least one when it returns a challenge. *)
Lemma fetch_attempts_log (n : nat) (log : list Event) :
  exists k, k <= n
    /\ snd (fetch_attempts n log) = log ++ replicate k EvGet
    /\ (is_Some (fst (fetch_attempts n log)) -> 1 <= k).
Proof.
  revert log. induction n as [|n IH]; intros log; simpl.
  - exists 0. rewrite app_nil_r. split; [done|]. split; [done|].
    intros [? ?]; done.
  - destruct (on_get remote log) as [page|].
    + destruct (challenge_of page) as [ch|].
      * exists 1. simpl. split; [lia|]. split; [done|lia].
      * destruct (IH (log ++ [EvGet])) as (k & Hk & Hlog & Hsome).
        exists (S k). split; [lia|]. split; [|lia].
        rewrite Hlog, <- app_assoc. done.
    + exists 1. simpl. split; [lia|]. split; [done|]. intros [? ?]; done.
Qed.

Lemma fetchWithSession_submits (log log1 : list Event) (r : option Challenge) :
  fetchWithSession log = (r, log1) -> submits log1 = submits log.
Proof.
  intros H. destruct (fetch_attempts_log 10 log) as (k & _ & Hlog & _).
  unfold Login.fetchWithSession in H. rewrite H in Hlog. simpl in Hlog.
  rewrite Hlog, submits_app, submits_gets. lia.
Qed.

(** Against such a portal the loop ends at its first submit, or never
    submits. *)
Lemma login_rounds_rejected (n : nat) (username password : string)
    (log : list Event) :
  always_rejects ->
  let '(result, log') := login_rounds n username password log in
  (result = Failure "Invalid credentials" /\ submits log' = submits log + 1)
  \/ (result = Failure "Maximum login attempts reached"
      /\ submits log' = submits log).
Proof.
  intros Hrej. revert log. induction n as [|n IH]; intros log.
  - simpl. by right.
  - cbn [Login.login_rounds].
    destruct (fetchWithSession log) as [[ch|] log1] eqn:Hfetch.
    + destruct (Hrej log1 (loginUrl_of encodeURIComponent username password ch))
        as (data & -> & Hdata).
      rewrite (check_credentials data Hdata). left. split; [done|].
      rewrite submits_app, (fetchWithSession_submits log log1 _ Hfetch).
      done.
    + specialize (IH log1).
      destruct (login_rounds n username password log1) as [result log'].
      by rewrite (fetchWithSession_submits log log1 _ Hfetch) in IH.
Qed.

Lemma fetch_attempts_never (n : nat) (log : list Event) :
  never_captcha ->
  fetch_attempts n log = (None, log ++ replicate n EvGet).
Proof.
  intros Hnever. revert log. induction n as [|n IH]; intros log; simpl.
  - by rewrite app_nil_r.
  - destruct (Hnever log) as (page & -> & Hpage).
    unfold Login.challenge_of. rewrite Hpage.
    by rewrite IH, <- app_assoc.
Qed.

Lemma login_rounds_never (n : nat) (username password : string)
    (log : list Event) :
  never_captcha ->
  login_rounds n username password log
  = (Failure "Maximum login attempts reached",
     log ++ replicate (n * 10) EvGet).
Proof.
  intros Hnever. revert log. induction n as [|n IH]; intros log.
  - simpl. by rewrite app_nil_r.
  - cbn [Login.login_rounds]. unfold Login.fetchWithSession.
    rewrite fetch_attempts_never by done. rewrite IH.
    rewrite <- app_assoc, <- replicate_add.
    repeat f_equal; lia.
Qed.

End WithCollaborators.

(** C3 fails as it is stated: a portal whose every answer to a submit
    carries "Invalid LoginId/Password", but whose login page never shows a
    CAPTCHA, is never sent a submit. [attemptLogin] fetches 50 times and
    returns the failure "Maximum login attempts reached". *)
Lemma rejected_credentials_without_a_challenge :
  always_rejects rejecting_captchaless_remote
  /\ attemptLogin constant_solver identity_encoding "stu1" "pw1"
       (Some rejecting_captchaless_remote)
     = (Failure "Maximum login attempts reached", replicate 50 EvGet)
  /\ submits (replicate 50 EvGet) = 0.
Proof.
  split; [|split].
  - intros log url. eexists. split; [reflexivity|]. vm_compute. reflexivity.
  - vm_compute. reflexivity.
  - apply submits_gets.
Qed.

(** C3, as amended. Against a portal whose every answer to a submit
    carries "Invalid LoginId/Password", [attemptLogin] never submits
    twice: it returns either the failure "Invalid credentials" after
    exactly one submit, or the failure "Maximum login attempts reached"
    after no submit at all. When its first call of [fetchWithSession]
    returns a challenge, it returns the failure "Invalid credentials"
    after exactly one submit, which is the submit of that challenge. *)
Theorem invalid_credentials_is_terminal
    (solveCaptchaFromBase64 : string -> option string)
    (encodeURIComponent : string -> string) (remote : Remote)
    (username password : string) :
  always_rejects remote ->
  let '(result, log) :=
    attemptLogin solveCaptchaFromBase64 encodeURIComponent username password
      (Some remote) in
  ((result = Failure "Invalid credentials" /\ submits log = 1)
   \/ (result = Failure "Maximum login attempts reached" /\ submits log = 0))
  /\ (forall ch log1,
        fetchWithSession solveCaptchaFromBase64 remote [] = (Some ch, log1) ->
        result = Failure "Invalid credentials"
        /\ submits log = 1
        /\ log = log1 ++ [EvPost (loginUrl_of encodeURIComponent username
                                    password ch)]).
Proof.
  intros Hrej. unfold attemptLogin.
  pose proof (login_rounds_rejected solveCaptchaFromBase64 encodeURIComponent
    remote 5 username password [] Hrej) as Hgen.
  destruct (login_rounds solveCaptchaFromBase64 encodeURIComponent remote 5
    username password []) as [result log] eqn:Hrun.
  split; [exact Hgen|].
  intros ch log1 Hfetch.
  cbn [login_rounds] in Hrun. rewrite Hfetch in Hrun.
  destruct (Hrej log1 (loginUrl_of encodeURIComponent username password ch))
    as (data & Hpost & Hdata).
  rewrite Hpost, (check_credentials data Hdata) in Hrun.
  injection Hrun as <- <-. split; [done|]. split; [|done].
  rewrite submits_app.
  rewrite (fetchWithSession_submits solveCaptchaFromBase64 remote [] log1
             (Some ch) Hfetch).
  reflexivity.
Qed.

(** The amended C3 on a portal that serves the CAPTCHA page and rejects
    the credentials. *)
Lemma invalid_credentials_witness :
  let '(result, log) :=
    attemptLogin constant_solver identity_encoding "stu1" "pw1"
      (Some rejecting_remote) in
  result = Failure "Invalid credentials"
  /\ submits log = 1
  /\ log = [EvGet]
           ++ [EvPost (loginUrl_of identity_encoding "stu1" "pw1"
                         {| csrf := "tok"; captchaSolution := "ABCDEF" |})].
Proof.
  assert (always_rejects rejecting_remote) as Hrej.
  { intros log url. eexists. split; [reflexivity|]. vm_compute. reflexivity. }
  pose proof (invalid_credentials_is_terminal constant_solver identity_encoding
    rejecting_remote "stu1" "pw1" Hrej) as Hthm.
  destruct (attemptLogin constant_solver identity_encoding "stu1" "pw1"
    (Some rejecting_remote)) as [result log].
  destruct Hthm as [_ Hscenario].
  apply (Hscenario {| csrf := "tok"; captchaSolution := "ABCDEF" |} [EvGet]).
  reflexivity.
Defined.

(** C4 fails as it is stated: when the answer to the first submit carries
    "Invalid Captcha" together with "Invalid LoginId/Password", the login
    ends there with the failure "Invalid credentials", although the answer
    to a second submit would have carried neither marker. *)
Lemma captcha_marker_beside_credentials_marker :
  let url :=
    "https://vtop.vit.ac.in/vtop/login?_csrf=tok&username=stu1&password=pw1&captchaStr=ABCDEF" in
  let first := "<p>Invalid LoginId/Password</p><p>Invalid Captcha</p>" in
  let second := "<html>home</html>" in
  on_post both_markers_remote [EvGet] url = Some first
  /\ includes "Invalid Captcha" first = true
  /\ on_post both_markers_remote [EvGet; EvPost url; EvGet] url = Some second
  /\ includes "Invalid LoginId/Password" second = false
  /\ includes "Invalid Captcha" second = false
  /\ attemptLogin constant_solver identity_encoding "stu1" "pw1"
       (Some both_markers_remote)
     = (Failure "Invalid credentials", [EvGet; EvPost url]).
Proof. vm_compute. repeat split. Qed.

(** C4, as amended. When the answer to the first submit carries
    "Invalid Captcha" and not "Invalid LoginId/Password", and the answer
    to the second submit carries neither, [attemptLogin] returns the
    second answer as a success after exactly two submits. The second
    submit carries the token and the guess of a challenge that was fetched
    after the first submit. *)
Theorem invalid_captcha_then_success
    (solveCaptchaFromBase64 : string -> option string)
    (encodeURIComponent : string -> string) (remote : Remote)
    (username password : string)
    (ch1 ch2 : Challenge) (log1 log2 : list Event) (data1 data2 : string) :
  let url1 := loginUrl_of encodeURIComponent username password ch1 in
  let url2 := loginUrl_of encodeURIComponent username password ch2 in
  fetchWithSession solveCaptchaFromBase64 remote [] = (Some ch1, log1) ->
  on_post remote log1 url1 = Some data1 ->
  includes "Invalid LoginId/Password" data1 = false ->
  includes "Invalid Captcha" data1 = true ->
  fetchWithSession solveCaptchaFromBase64 remote (log1 ++ [EvPost url1])
  = (Some ch2, log2) ->
  on_post remote log2 url2 = Some data2 ->
  includes "Invalid LoginId/Password" data2 = false ->
  includes "Invalid Captcha" data2 = false ->
  attemptLogin solveCaptchaFromBase64 encodeURIComponent username password
    (Some remote)
  = (Success data2, log2 ++ [EvPost url2])
  /\ submits (log2 ++ [EvPost url2]) = 2
  /\ exists k1 k2, 1 <= k1 /\ 1 <= k2
       /\ log2 ++ [EvPost url2]
          = replicate k1 EvGet ++ [EvPost url1]
            ++ replicate k2 EvGet ++ [EvPost url2].
Proof.
  intros url1 url2 Hf1 Hp1 Hc1 Hk1 Hf2 Hp2 Hc2 Hk2.
  assert (exists k1, 1 <= k1 /\ log1 = replicate k1 EvGet) as (k1 & Hk1' & ->).
  { destruct (fetch_attempts_log solveCaptchaFromBase64 remote 10 [])
      as (k & _ & Hlog & Hsome).
    unfold fetchWithSession in Hf1. rewrite Hf1 in Hlog, Hsome.
    exists k. split; [apply Hsome; by eexists|done]. }
  assert (exists k2, 1 <= k2
    /\ log2 = (replicate k1 EvGet ++ [EvPost url1]) ++ replicate k2 EvGet)
    as (k2 & Hk2' & ->).
  { destruct (fetch_attempts_log solveCaptchaFromBase64 remote 10
      (replicate k1 EvGet ++ [EvPost url1])) as (k & _ & Hlog & Hsome).
    unfold fetchWithSession in Hf2. rewrite Hf2 in Hlog, Hsome.
    exists k. split; [apply Hsome; by eexists|done]. }
  split; [|split].
  - unfold attemptLogin. cbn [login_rounds].
    rewrite Hf1. fold url1. rewrite Hp1, (check_captcha data1 Hc1 Hk1).
    rewrite Hf2. fold url2. rewrite Hp2, (check_clean data2 Hc2 Hk2). done.
  - rewrite !submits_app, !submits_gets. done.
  - exists k1, k2. split; [done|]. split; [done|].
    by rewrite <- !app_assoc.
Qed.

(** The amended C4 holds of a portal that answers the first submit with
    "Invalid Captcha" and the second with its home page. *)
Lemma invalid_captcha_then_success_witness :
  let url1 :=
    "https://vtop.vit.ac.in/vtop/login?_csrf=tok1&username=stu1&password=pw1&captchaStr=ABCDEF" in
  let url2 :=
    "https://vtop.vit.ac.in/vtop/login?_csrf=tok2&username=stu1&password=pw1&captchaStr=ABCDEF" in
  attemptLogin constant_solver identity_encoding "stu1" "pw1"
    (Some second_try_remote)
  = (Success "<html>home</html>", [EvGet; EvPost url1; EvGet] ++ [EvPost url2])
  /\ submits ([EvGet; EvPost url1; EvGet] ++ [EvPost url2]) = 2
  /\ exists k1 k2, 1 <= k1 /\ 1 <= k2
       /\ [EvGet; EvPost url1; EvGet] ++ [EvPost url2]
          = replicate k1 EvGet ++ [EvPost url1]
            ++ replicate k2 EvGet ++ [EvPost url2].
Proof.
  apply (invalid_captcha_then_success constant_solver identity_encoding
    second_try_remote "stu1" "pw1"
    {| csrf := "tok1"; captchaSolution := "ABCDEF" |}
    {| csrf := "tok2"; captchaSolution := "ABCDEF" |}
    [EvGet] _ "<p>Invalid Captcha</p>" "<html>home</html>");
    vm_compute; reflexivity.
Defined.

(** C5 fails as it is stated: against a portal whose login page never
    shows a CAPTCHA, [attemptLogin] gives up after 50 fetches, not 10. *)
Lemma fifty_fetches_without_captcha :
  let '(result, log) :=
    attemptLogin constant_solver identity_encoding "stu1" "pw1"
      (Some captchaless_remote) in
  result = Failure "Maximum login attempts reached"
  /\ fetches log = 50 /\ fetches log <> 10 /\ submits log = 0.
Proof. vm_compute. repeat split. discriminate. Qed.

(** C5, as amended. When no page that the portal serves has anything
    that [detectCaptchaType] looks for, each call of [fetchWithSession]
    returns [null] after exactly 10 fetches, and [attemptLogin], which
    calls it in each of its 5 rounds, returns the failure
    "Maximum login attempts reached" after exactly 50 fetches and no
    submit. *)
Theorem no_captcha_exhausts_both_loops
    (solveCaptchaFromBase64 : string -> option string)
    (encodeURIComponent : string -> string) (remote : Remote)
    (username password : string) :
  never_captcha remote ->
  (forall log, exists log',
     fetchWithSession solveCaptchaFromBase64 remote log = (None, log ++ log')
     /\ fetches log' = 10 /\ submits log' = 0)
  /\ exists log,
       attemptLogin solveCaptchaFromBase64 encodeURIComponent username
         password (Some remote)
       = (Failure "Maximum login attempts reached", log)
       /\ fetches log = 50 /\ submits log = 0.
Proof.
  intros Hnever. split.
  - intros log. exists (replicate 10 EvGet). unfold fetchWithSession.
    rewrite fetch_attempts_never by done.
    by rewrite fetches_gets, submits_gets.
  - exists (replicate 50 EvGet). unfold attemptLogin.
    rewrite login_rounds_never by done.
    by rewrite fetches_gets, submits_gets.
Qed.

(** The amended C5 holds of a portal whose login page is plain. *)
Lemma no_captcha_witness :
  (forall log, exists log',
     fetchWithSession constant_solver captchaless_remote log
     = (None, log ++ log')
     /\ fetches log' = 10 /\ submits log' = 0)
  /\ exists log,
       attemptLogin constant_solver identity_encoding "stu1" "pw1"
         (Some captchaless_remote)
       = (Failure "Maximum login attempts reached", log)
       /\ fetches log = 50 /\ submits log = 0.
Proof.
  apply (no_captcha_exhausts_both_loops constant_solver identity_encoding
    captchaless_remote "stu1" "pw1").
  intros log. exists plain_page. split; reflexivity.
Defined.

End LoginFacts.

(** ** The session cache *)

Module RegistryFacts.
Import Registry.

Lemma sweep_lookup (now : Z) (st : State) (username : string) :
  userSessions (sweep now st) !! username
  = match userSessions st !! username with
    | Some session =>
        if decide (now - lastUsed session <= SESSION_TIMEOUT)%Z
        then Some session else None
    | None => None
    end.
Proof.
  unfold sweep. simpl.
  destruct (userSessions st !! username) as [session|] eqn:Hs.
  - case_decide.
    + apply map_lookup_filter_Some. by split.
    + apply map_lookup_filter_None. right. intros s' Hs'.
      rewrite Hs in Hs'. injection Hs' as <-. done.
  - apply map_lookup_filter_None. by left.
Qed.

(** After [getUserClient] the cache holds an entry for the principal that
    was last used at the time of the call and that has the client
    returned. *)
Lemma getUserClient_stored (username : string) (t : Z) (st : State) :
  exists session,
    userSessions (getUserClient username t st).2 !! username = Some session
    /\ lastUsed session = t
    /\ client session = (getUserClient username t st).1.
Proof.
  unfold getUserClient.
  destruct (userSessions st !! username) as [old|].
  - destruct (t - lastUsed old <? SESSION_TIMEOUT)%Z; simpl;
      rewrite lookup_insert_eq; by eexists.
  - simpl. rewrite lookup_insert_eq. by eexists.
Qed.

(** C8. A sweep deletes every session that was last used longer ago than
    the timeout. A call of [getUserClient] sets the time of last use of
    the session of its principal to the time of the call, so that the
    next sweep, which runs at most one period later, keeps the session. A
    session that is reused keeps its client and its authentication
    data. *)
Theorem sweep_evicts_idle_and_keeps_refreshed :
  (forall st username session now,
     userSessions st !! username = Some session ->
     (SESSION_TIMEOUT < now - lastUsed session)%Z ->
     userSessions (sweep now st) !! username = None)
  /\ (forall st username t now,
        (now <= t + SWEEP_INTERVAL)%Z ->
        exists session,
          userSessions (sweep now (getUserClient username t st).2) !! username
          = Some session
          /\ lastUsed session = t
          /\ client session = (getUserClient username t st).1)
  /\ (forall st username old t,
        userSessions st !! username = Some old ->
        (t - lastUsed old < SESSION_TIMEOUT)%Z ->
        (getUserClient username t st).1 = client old
        /\ userSessions (getUserClient username t st).2 !! username
           = Some {| client := client old; studentId := studentId old;
                     csrf := csrf old; lastUsed := t |}).
Proof.
  split; [|split].
  - intros st username session now Hs Hold.
    rewrite sweep_lookup, Hs. case_decide; [lia|done].
  - intros st username t now Hnow.
    destruct (getUserClient_stored username t st) as (session & Hs & Ht & Hc).
    exists session. rewrite sweep_lookup, Hs.
    unfold SWEEP_INTERVAL, SESSION_TIMEOUT in *.
    case_decide; [done|lia].
  - intros st username old t Hold Hfresh. unfold getUserClient.
    rewrite Hold. destruct (Z.ltb_spec (t - lastUsed old) SESSION_TIMEOUT); [|lia].
    simpl. by rewrite lookup_insert_eq.
Qed.

(** C8 on an empty cache: a session made at time 0 survives the sweep at
    time 300000 and is gone after the sweep at time 300001. *)
Lemma sweep_witness :
  userSessions (sweep 300001 (getUserClient "stu1" 0 initial).2) !! "stu1" = None
  /\ exists session,
       userSessions (sweep 300000 (getUserClient "stu1" 0 initial).2) !! "stu1"
       = Some session
       /\ lastUsed session = 0%Z
       /\ client session = (getUserClient "stu1" 0 initial).1.
Proof.
  destruct sweep_evicts_idle_and_keeps_refreshed as (Hevict & Hkeep & _).
  split.
  - destruct (getUserClient_stored "stu1" 0 initial) as (session & Hs & Ht & _).
    apply (Hevict _ "stu1" session 300001%Z Hs). rewrite Ht.
    vm_compute. reflexivity.
  - apply (Hkeep initial "stu1" 0%Z 300000%Z). vm_compute. discriminate.
Defined.

End RegistryFacts.

(** ** Concurrent requests of one principal *)

Module ServerFacts.
Import Registry Server.

Lemma logins_for_app (username : string) (st st' : Registry.State)
    (calls : list (string * nat)) (c : nat) :
  logins_for username
    {| sessions := st'; login_calls := calls ++ [(username, c)] |}
  = S (logins_for username {| sessions := st; login_calls := calls |}).
Proof.
  unfold logins_for. simpl. rewrite filter_app, length_app.
  rewrite filter_cons_True by done. simpl. lia.
Qed.

(** [getUserClient] does not authenticate: the entry it leaves is
    authenticated only if the entry it found was. *)
Lemma getUserClient_authenticated (username : string) (now : Z) (st : State) :
  authenticated (userSessions st !! username) = false ->
  authenticated (userSessions (getUserClient username now st).2 !! username)
  = false.
Proof.
  intros Hauth. unfold getUserClient.
  destruct (userSessions st !! username) as [old|] eqn:Hold.
  - destruct (now - lastUsed old <? SESSION_TIMEOUT)%Z; simpl;
      rewrite lookup_insert_eq; done.
  - simpl. by rewrite lookup_insert_eq.
Qed.

(** A request that finds no authenticated session calls [attemptLogin],
    and leaves the session as unauthenticated as it found it. *)
Lemma arrive_unauthenticated (p : Process) (username : string) (now : Z) :
  authenticated (userSessions (sessions p) !! username) = false ->
  logins_for username (step p (Arrive username now))
  = S (logins_for username p)
  /\ authenticated
       (userSessions (sessions (step p (Arrive username now))) !! username)
     = false.
Proof.
  intros Hauth. unfold step.
  pose proof (getUserClient_authenticated username now (sessions p) Hauth) as H.
  destruct (getUserClient username now (sessions p)) as [c st]. simpl in H.
  rewrite H. split; [|done].
  destruct p as [reg calls]. apply logins_for_app.
Qed.

Lemma arrivals_unauthenticated (p : Process) (username : string)
    (times : list Z) :
  authenticated (userSessions (sessions p) !! username) = false ->
  logins_for username (run (Arrive username <$> times) p)
  = logins_for username p + length times.
Proof.
  revert p. induction times as [|t times IH]; intros p Hauth.
  - unfold run. simpl. lia.
  - destruct (arrive_unauthenticated p username t Hauth) as [Hone Hstill].
    unfold run in *. rewrite fmap_cons. cbn [foldl].
    rewrite IH by done. rewrite Hone. simpl. lia.
Qed.

(** C9 fails as it is stated: two requests of a new principal that arrive
    before either login is over make two calls of [attemptLogin], with
    the same client. *)
Lemma two_arrivals_two_logins :
  login_calls (run [Arrive "stu1" 0; Arrive "stu1" 1] start)
  = [("stu1", 0); ("stu1", 0)]
  /\ logins_for "stu1" (run [Arrive "stu1" 0; Arrive "stu1" 1] start) = 2.
Proof. vm_compute. split; reflexivity. Qed.

(** A request that finds an unauthenticated session last used less than
    the timeout ago calls [attemptLogin] with the client of that session,
    and leaves the session as it is but for the time of its last use. *)
Lemma arrive_reuses_client (p : Process) (username : string) (old : Session)
    (now : Z) :
  userSessions (sessions p) !! username = Some old ->
  authenticated (Some old) = false ->
  (now - lastUsed old < SESSION_TIMEOUT)%Z ->
  login_calls (step p (Arrive username now))
  = login_calls p ++ [(username, client old)]
  /\ userSessions (sessions (step p (Arrive username now))) !! username
     = Some {| client := client old; studentId := studentId old;
               Registry.csrf := Registry.csrf old; lastUsed := now |}.
Proof.
  intros Hold Hauth Hnow. cbn [step]. unfold getUserClient. rewrite Hold.
  destruct (Z.ltb_spec (now - lastUsed old) SESSION_TIMEOUT); [|lia].
  cbn [userSessions]. rewrite lookup_insert_eq.
  change (authenticated (Some {| client := client old;
                                 studentId := studentId old;
                                 Registry.csrf := Registry.csrf old;
                                 lastUsed := now |}))
    with (authenticated (Some old)).
  rewrite Hauth. cbn [login_calls sessions userSessions].
  by rewrite lookup_insert_eq.
Qed.

(** Requests in quick succession that find an unauthenticated session all
    call [attemptLogin] with its client. *)
Lemma arrivals_share_client (times : list Z) (p : Process)
    (username : string) (old : Session) :
  userSessions (sessions p) !! username = Some old ->
  authenticated (Some old) = false ->
  in_quick_succession (lastUsed old) times ->
  login_calls (run (Arrive username <$> times) p)
  = login_calls p ++ replicate (length times) (username, client old).
Proof.
  revert p old. induction times as [|t times IH]; intros p old Hold Hauth Hq.
  - unfold run. cbn [fmap list_fmap foldl length replicate].
    by rewrite app_nil_r.
  - destruct Hq as [Ht Hq].
    destruct (arrive_reuses_client p username old t Hold Hauth Ht)
      as [Hcalls Hnew].
    unfold run in *. rewrite fmap_cons. cbn [foldl].
    rewrite (IH _ _ Hnew); [|exact Hauth|exact Hq].
    rewrite Hcalls. cbn [client length replicate].
    by rewrite <- app_assoc.
Qed.

(** The first request of a principal that has no session calls
    [attemptLogin] with a client made for it. *)
Lemma arrive_makes_client (p : Process) (username : string) (now : Z) :
  userSessions (sessions p) !! username = None ->
  login_calls (step p (Arrive username now))
  = login_calls p ++ [(username, clients_made (sessions p))]
  /\ userSessions (sessions (step p (Arrive username now))) !! username
     = Some {| client := clients_made (sessions p); studentId := None;
               Registry.csrf := None; lastUsed := now |}.
Proof.
  intros Hnew. cbn [step]. unfold getUserClient. rewrite Hnew.
  unfold store_new_client. cbn [userSessions]. rewrite lookup_insert_eq.
  cbn [authenticated studentId Login.truthy andb login_calls sessions
       userSessions].
  by rewrite lookup_insert_eq.
Qed.

(** C9, as amended. The cache has no lock and no marker of a login in
    progress: when [N] requests of a principal that has no session arrive
    before any of their logins is over, each of them calls
    [attemptLogin], which makes [N] logins. When each of the requests
    arrives less than the timeout after the one before it, all [N] logins
    are given the client that was made for the first. Once a login is over
    and its identifier and token are stored, a request that arrives within
    the timeout reuses them and makes no login. *)
Theorem every_early_arrival_logs_in :
  (forall p username times,
     userSessions (sessions p) !! username = None ->
     logins_for username (run (Arrive username <$> times) p)
     = logins_for username p + length times)
  /\ (forall p username t times,
        userSessions (sessions p) !! username = None ->
        in_quick_succession t times ->
        login_calls (run (Arrive username <$> t :: times) p)
        = login_calls p
          ++ replicate (S (length times))
               (username, clients_made (sessions p)))
  /\ (forall p username c id token t t',
        Login.truthy (Some id) = true -> Login.truthy (Some token) = true ->
        (t' - t < SESSION_TIMEOUT)%Z ->
        logins_for username
          (run [LoginOver username c (Some (id, token)) t; Arrive username t'] p)
        = logins_for username p).
Proof.
  split; [|split].
  - intros p username times Hnew. apply arrivals_unauthenticated.
    by rewrite Hnew.
  - intros p username t times Hnew Hq.
    destruct (arrive_makes_client p username t Hnew) as [Hcalls Hfirst].
    unfold run. rewrite fmap_cons. cbn [foldl].
    pose proof (arrivals_share_client times (step p (Arrive username t))
      username _ Hfirst eq_refl Hq) as Hrest.
    unfold run in Hrest. rewrite Hrest, Hcalls. cbn [client replicate].
    by rewrite <- app_assoc.
  - intros p username c id token t t' Hid Htoken Ht.
    unfold run. cbn [foldl step]. rewrite Hid, Htoken. cbn [andb sessions].
    unfold getUserClient. cbn [userSessions]. rewrite lookup_insert_eq.
    cbn [lastUsed]. destruct (Z.ltb_spec (t' - t) SESSION_TIMEOUT); [|lia].
    cbn [userSessions]. rewrite lookup_insert_eq.
    unfold authenticated. cbn [studentId Registry.csrf].
    rewrite Hid, Htoken. reflexivity.
Qed.

(** The amended C9 on three requests of a new principal, and on a request
    that follows a login. *)
Lemma early_arrivals_witness :
  logins_for "stu1" (run (Arrive "stu1" <$> [0; 1; 2]%Z) start)
  = logins_for "stu1" start + 3
  /\ login_calls (run (Arrive "stu1" <$> [0; 1; 2]%Z) start)
     = login_calls start ++ replicate 3 ("stu1", clients_made (sessions start))
  /\ logins_for "stu1"
       (run [LoginOver "stu1" 0 (Some ("id1", "tok")) 10; Arrive "stu1" 20]
          start)
     = logins_for "stu1" start.
Proof.
  destruct every_early_arrival_logs_in as (Hearly & Hclient & Hlate).
  split; [|split].
  - apply (Hearly start "stu1" [0; 1; 2]%Z). reflexivity.
  - apply (Hclient start "stu1" 0%Z [1; 2]%Z); [reflexivity|].
    cbn [in_quick_succession]. unfold SESSION_TIMEOUT. lia.
  - apply (Hlate start "stu1" 0 "id1" "tok" 10%Z 20%Z);
      [reflexivity|reflexivity|vm_compute; reflexivity].
Defined.

End ServerFacts.

(** ** The two classifiers side by side *)

Module ClassifierFacts.
Import JS TemplateMatcher TemplateFacts LinearClassifier LinearFacts.

(** The template matcher returns six symbols of its table. *)
Lemma captcha_parse_six_symbols (bitmaps : ascii -> option Grid) (imgarr : Grid) :
  bitmaps_present bitmaps -> 45 <= length imgarr ->
  exists ws, captcha_parse bitmaps imgarr = Some (string_of_list_ascii ws)
    /\ length ws = 6
    /\ Forall (fun w => w ∈ symbols) ws.
Proof.
  intros Hb Hg.
  destruct (clean_ok imgarr Hg) as (cleaned & Hclean & Hlen).
  destruct (match_bands_symbols bitmaps cleaned) as (ws & Hws & Hsix & Hin & _);
    [done|lia|].
  exists ws. unfold captcha_parse. rewrite Hclean. by cbn [mbind option_bind].
Qed.

(** The linear classifier returns six pieces, one per cell; a piece is a
    symbol of the table when its index lies within the table, and the
    text "undefined" otherwise. *)
Lemma solveCaptchaFromBase64_pieces
    (Math_exp : float -> float) (weights : list (list float))
    (biases : list float) (loadImage : string -> option Image)
    (drawn : Image -> nat -> nat -> list N)
    (base64String imageData : string) (img : Image) :
  model_ok weights ->
  split_comma_1 base64String = Some imageData ->
  loadImage imageData = Some img ->
  length (drawn img WIDTH HEIGHT) = 4 * WIDTH * HEIGHT ->
  exists idx : nat -> Z,
    solveCaptchaFromBase64 Math_exp weights biases loadImage drawn base64String
    = Some (label_at (idx 0) ++ label_at (idx 1) ++ label_at (idx 2)
            ++ label_at (idx 3) ++ label_at (idx 4) ++ label_at (idx 5))%string
    /\ forall i,
         ((0 <= idx i < 32)%Z /\
          exists c, label_at (idx i) = String c EmptyString
            /\ c ∈ list_ascii_of_string label_txt)
         \/ (~ (0 <= idx i < 32)%Z /\ label_at (idx i) = "undefined").
Proof.
  intros Hm Hsplit Hload Hlen.
  destruct (classify_cells_pieces Math_exp weights biases
    (drawn img WIDTH HEIGHT) Hm) as (sat & idx & Hsat & _ & Hout).
  { by rewrite Hlen. }
  exists idx. split.
  - unfold solveCaptchaFromBase64. rewrite Hsplit. cbn [mbind option_bind].
    rewrite Hload. cbn [mbind option_bind]. rewrite Hsat.
    cbn [mbind option_bind]. exact Hout.
  - intros i. destruct (decide (0 <= idx i < 32)%Z) as [Hin|Hout'].
    + left. split; [done|]. by apply label_at_symbol.
    + right. split; [done|]. by apply label_at_outside.
Qed.

(** C2, as amended. On a grid of at least 45 rows, with a template of at
    least 32 rows for each symbol, the template matcher returns exactly
    six characters of its alphabet. On a picture that loads, with a model
    of at least 528 weight rows and between 1 and 32 classes, the linear
    classifier returns exactly six characters of its alphabet whenever no
    soft-max vector holds a NaN. *)
Theorem classifiers_return_six_symbols :
  (forall (bitmaps : ascii -> option Grid) (imgarr : Grid),
     bitmaps_present bitmaps -> 45 <= length imgarr ->
     exists ws, captcha_parse bitmaps imgarr = Some (string_of_list_ascii ws)
       /\ length ws = 6
       /\ Forall (fun w => w ∈ symbols) ws)
  /\ (forall (Math_exp : float -> float) (weights : list (list float))
        (biases : list float) (loadImage : string -> option Image)
        (drawn : Image -> nat -> nat -> list N)
        (base64String imageData : string) (img : Image),
        model_ok weights ->
        1 <= length (default [] (weights !! 0)) <= 32 ->
        split_comma_1 base64String = Some imageData ->
        loadImage imageData = Some img ->
        length (drawn img WIDTH HEIGHT) = 4 * WIDTH * HEIGHT ->
        (forall bls block probs,
           saturation (drawn img WIDTH HEIGHT) = Some bls -> block ∈ bls ->
           cell_probs Math_exp weights biases block = Some probs ->
           Forall (fun x => is_nan x = false) probs) ->
        exists cs,
          solveCaptchaFromBase64 Math_exp weights biases loadImage drawn
            base64String = Some (string_of_list_ascii cs)
          /\ length cs = 6
          /\ Forall (fun c => c ∈ list_ascii_of_string label_txt) cs).
Proof.
  split; [exact captcha_parse_six_symbols|].
  intros Math_exp weights biases loadImage drawn base64String imageData img
    Hm Hclasses Hsplit Hload Hlen Hnum.
  destruct (classify_data Math_exp weights biases (drawn img WIDTH HEIGHT))
    as (out & Hout & Hsix); [done|by rewrite Hlen|].
  destruct (Hsix Hclasses Hnum) as (cs & -> & Hcs).
  exists cs. split; [|done].
  unfold solveCaptchaFromBase64. rewrite Hsplit. cbn [mbind option_bind].
  rewrite Hload. cbn [mbind option_bind]. exact Hout.
Qed.

Lemma all_black_bitmaps_present : bitmaps_present all_black_bitmaps.
Proof. apply bitmaps_ok_present, all_black_bitmaps_ok. Qed.

(** The amended C2 on a blank image with all-foreground templates, and on
    a red picture with the zero model. *)
Lemma six_symbols_witness :
  (exists ws,
     captcha_parse all_black_bitmaps blank_45x180
     = Some (string_of_list_ascii ws)
     /\ length ws = 6
     /\ Forall (fun w => w ∈ symbols) ws)
  /\ (exists cs,
        solveCaptchaFromBase64 exp_near_zero zero_weights zero_biases
          (fun _ => Some red_pixel_image) draw_uniform
          "data:image/jpeg;base64,AAAA" = Some (string_of_list_ascii cs)
        /\ length cs = 6
        /\ Forall (fun c => c ∈ list_ascii_of_string label_txt) cs).
Proof.
  destruct classifiers_return_six_symbols as [Htemplate Hlinear]. split.
  - apply Htemplate; [exact all_black_bitmaps_present|vm_compute; lia].
  - apply (Hlinear exp_near_zero zero_weights zero_biases
      (fun _ => Some red_pixel_image) draw_uniform
      "data:image/jpeg;base64,AAAA" "AAAA" red_pixel_image).
    + unfold model_ok, zero_weights. rewrite length_replicate. lia.
    + vm_compute. lia.
    + reflexivity.
    + reflexivity.
    + rewrite length_draw_uniform by (simpl; lia). unfold WIDTH, HEIGHT. lia.
    + intros bls block probs Hbls Hin Hprobs.
      rewrite red_canvas_saturation in Hbls.
      apply (inj Some) in Hbls. rewrite <- Hbls in Hin.
      apply elem_of_replicate in Hin as [-> _].
      destruct red_cell_probs as (probs' & Hprobs' & Hnum & _).
      rewrite Hprobs' in Hprobs. by injection Hprobs as <-.
Defined.

(** C7 fails as it is stated: the table of the linear classifier has 32
    symbols, not 33. *)
Lemma label_table_has_32_symbols :
  label_txt = "ABCDEFGHJKLMNPQRSTUVWXYZ23456789"
  /\ String.length label_txt = 32
  /\ String.length label_txt <> 33.
Proof. split; [reflexivity|]. split; [reflexivity|]. vm_compute. discriminate. Qed.

(** C7, as amended. The two tables are fixed and differ: the one of the
    template matcher has 34 symbols, the digits 1 to 9 and the letters but
    O; the one of the linear classifier has 32 symbols, the letters but I
    and O and then the digits 2 to 9. What the template matcher returns is
    made of symbols of its table. What the linear classifier returns is
    made of six pieces, each the symbol of its table at the index computed
    for the cell, or the text "undefined" when that index lies outside the
    table. *)
Theorem alphabets_are_fixed_and_distinct :
  chars = "123456789ABCDEFGHIJKLMNPQRSTUVWXYZ"
  /\ String.length chars = 34
  /\ String.index 0 "O" chars = None
  /\ label_txt = "ABCDEFGHJKLMNPQRSTUVWXYZ23456789"
  /\ String.length label_txt = 32
  /\ String.index 0 "I" label_txt = None
  /\ String.index 0 "O" label_txt = None
  /\ String.substring 24 8 label_txt = "23456789"
  /\ chars <> label_txt
  /\ (forall (bitmaps : ascii -> option Grid) (imgarr : Grid),
        bitmaps_present bitmaps -> 45 <= length imgarr ->
        exists ws, captcha_parse bitmaps imgarr = Some (string_of_list_ascii ws)
          /\ Forall (fun w => w ∈ list_ascii_of_string chars) ws)
  /\ (forall (Math_exp : float -> float) (weights : list (list float))
        (biases : list float) (loadImage : string -> option Image)
        (drawn : Image -> nat -> nat -> list N)
        (base64String imageData : string) (img : Image),
        model_ok weights ->
        split_comma_1 base64String = Some imageData ->
        loadImage imageData = Some img ->
        length (drawn img WIDTH HEIGHT) = 4 * WIDTH * HEIGHT ->
        exists idx : nat -> Z,
          solveCaptchaFromBase64 Math_exp weights biases loadImage drawn
            base64String
          = Some (label_at (idx 0) ++ label_at (idx 1) ++ label_at (idx 2)
                  ++ label_at (idx 3) ++ label_at (idx 4)
                  ++ label_at (idx 5))%string
          /\ forall i,
               ((0 <= idx i < 32)%Z /\
                exists c, label_at (idx i) = String c EmptyString
                  /\ c ∈ list_ascii_of_string label_txt)
               \/ (~ (0 <= idx i < 32)%Z /\ label_at (idx i) = "undefined")).
Proof.
  do 8 (split; [reflexivity|]). split; [discriminate|]. split.
  - intros bitmaps imgarr Hb Hg.
    destruct (captcha_parse_six_symbols bitmaps imgarr Hb Hg)
      as (ws & Hws & _ & Hin).
    by exists ws.
  - exact solveCaptchaFromBase64_pieces.
Qed.

(** The amended C7 on a blank image with all-foreground templates, and on
    a red picture with the zero model. *)
Lemma alphabets_witness :
  (exists ws,
     captcha_parse all_black_bitmaps blank_45x180
     = Some (string_of_list_ascii ws)
     /\ Forall (fun w => w ∈ list_ascii_of_string chars) ws)
  /\ (exists idx : nat -> Z,
        solveCaptchaFromBase64 exp_near_zero zero_weights zero_biases
          (fun _ => Some red_pixel_image) draw_uniform
          "data:image/jpeg;base64,AAAA"
        = Some (label_at (idx 0) ++ label_at (idx 1) ++ label_at (idx 2)
                ++ label_at (idx 3) ++ label_at (idx 4)
                ++ label_at (idx 5))%string).
Proof.
  destruct alphabets_are_fixed_and_distinct
    as (_ & _ & _ & _ & _ & _ & _ & _ & _ & Htemplate & Hlinear).
  split.
  - apply Htemplate; [exact all_black_bitmaps_present|vm_compute; lia].
  - destruct (Hlinear exp_near_zero zero_weights zero_biases
      (fun _ => Some red_pixel_image) draw_uniform
      "data:image/jpeg;base64,AAAA" "AAAA" red_pixel_image)
      as (idx & Hidx & _).
    + unfold model_ok, zero_weights. rewrite length_replicate. lia.
    + reflexivity.
    + reflexivity.
    + rewrite length_draw_uniform by (simpl; lia). unfold WIDTH, HEIGHT. lia.
    + by exists idx.
Defined.

End ClassifierFacts.

(** * Further properties of the code *)

(** ** Loops that throw *)

Module ThrowFacts.
Import JS LoopFacts.

(** A loop over a concatenation is the loop over the first part followed
    by the loop over the second. *)
Lemma for_each_app {S A : Type} (l1 l2 : list A) (body : S -> A -> option S)
    (s : S) :
  for_each (l1 ++ l2) body s = for_each l1 body s ≫= for_each l2 body.
Proof.
  revert s. induction l1 as [|a l1 IH]; intros s; [done|].
  cbn [app for_each]. destruct (body s a) as [s'|]; [|done].
  cbn [mbind option_bind]. apply IH.
Qed.

(** Nested loops are one loop over the pairs, in order. *)
Lemma for_each_bind {S A B : Type} (l : list A) (g : A -> list B)
    (body : S -> B -> option S) (s : S) :
  for_each (l ≫= g) body s
  = for_each l (fun s' a => for_each (g a) body s') s.
Proof.
  revert s. induction l as [|a l IH]; intros s; [done|].
  change ((a :: l) ≫= g) with (g a ++ (l ≫= g)).
  rewrite for_each_app. cbn [for_each].
  destruct (for_each (g a) body s) as [s'|]; [|done].
  cbn [mbind option_bind]. apply IH.
Qed.

(** A loop throws when one of its iterations throws in every state that
    the iterations before it can leave. *)
Lemma for_each_throws {S A : Type} (P : S -> Prop) (l1 l2 : list A) (a : A)
    (body : S -> A -> option S) (s : S) :
  P s ->
  (forall s0 a0 s1, P s0 -> body s0 a0 = Some s1 -> P s1) ->
  (forall s0, P s0 -> body s0 a = None) ->
  for_each (l1 ++ a :: l2) body s = None.
Proof.
  intros Hs Hkeep Hthrow. revert s Hs.
  induction l1 as [|a1 l1 IH]; intros s Hs; cbn [app for_each].
  - by rewrite Hthrow.
  - destruct (body s a1) as [s1|] eqn:Hb; [|done].
    cbn [mbind option_bind]. apply IH. by eapply Hkeep.
Qed.

(** An invariant of the iterations holds after a loop that does not
    throw. *)
Lemma for_each_keeps {S A : Type} (P : S -> Prop) (l : list A)
    (body : S -> A -> option S) (s s' : S) :
  (forall s0 a0 s1, P s0 -> body s0 a0 = Some s1 -> P s1) ->
  P s -> for_each l body s = Some s' -> P s'.
Proof.
  intros Hkeep. revert s. induction l as [|a l IH]; intros s Hs Hrun.
  - by injection Hrun as <-.
  - cbn [for_each] in Hrun. destruct (body s a) as [s1|] eqn:Hb; [|done].
    cbn [mbind option_bind] in Hrun. eapply IH; [|done]. by eapply Hkeep.
Qed.

End ThrowFacts.

(** ** The template matcher, further *)

Module TemplateMore.
Import JS TemplateMatcher LoopFacts ThrowFacts TemplateFacts.

Local Arguments Nat.mul _ _ : simpl never.

Lemma at_index_array_set (r : list jsval) (y y' : nat) (v : jsval) :
  at_index (array_set r y v) y'
  = if decide (y' = y) then v else at_index r y'.
Proof.
  unfold at_index, array_set. destruct (decide (y < length r)) as [Hy|Hy].
  - case_decide as Heq.
    + subst y'. by rewrite list_lookup_insert_eq.
    + by rewrite list_lookup_insert_ne.
  - case_decide as Heq.
    + subst y'. rewrite lookup_app_r by lia.
      rewrite lookup_app_r by (rewrite length_replicate; lia).
      rewrite length_replicate.
      by replace (y - length r - (y - length r)) with 0 by lia.
    + destruct (decide (y' < length r)) as [Hlt|Hge].
      * by rewrite lookup_app_l.
      * rewrite (lookup_ge_None_2 r y') by lia.
        rewrite lookup_app_r by lia.
        destruct (decide (y' - length r < y - length r)) as [Hin|Hout].
        { rewrite lookup_app_l by (by rewrite length_replicate).
          by rewrite lookup_replicate_2. }
        rewrite lookup_app_r by (rewrite length_replicate; lia).
        rewrite length_replicate.
        destruct (y' - length r - (y - length r)) as [|n] eqn:Hn; [lia|done].
Qed.

Lemma strict_eq_num_true (v : jsval) (n : Z) :
  strict_eq_num v n = true -> v = JNum n.
Proof.
  destruct v as [m|]; simpl; [|done]. intros H. f_equal. lia.
Qed.

(** What a step of the cleaning loop does when it does not throw: it
    keeps the number of rows, touches no other cell, leaves the cell at 0
    or 255, and changes it to 255 if it changes it. *)
Lemma clean_cell_effect (g g' : Grid) (x y : nat) :
  clean_cell g x y = Some g' ->
  length g' = length g
  /\ (forall x' y', (x', y') <> (x, y) -> cell g' x' y' = cell g x' y')
  /\ (cell g' x y = JNum 0 \/ cell g' x y = JNum 255)
  /\ (cell g' x y = cell g x y \/ cell g' x y = JNum 255).
Proof.
  unfold clean_cell. intros H.
  destruct (g !! x) as [rx|] eqn:Hrx; [|done]. cbn [mbind option_bind] in H.
  destruct (g !! (x - 1)) as [rup|]; [|done]. cbn [mbind option_bind] in H.
  assert (x < length g) as Hx by (by eapply lookup_lt_Some).
  assert (cell g x y = at_index rx y) as Hcell.
  { unfold cell. by rewrite Hrx. }
  set (c1 := strict_eq_num (at_index rx (y - 1)) 255
             && strict_eq_num (at_index rx y) 0
             && strict_eq_num (at_index rx (y + 1)) 255) in H.
  set (c3 := negb (strict_eq_num (at_index rx y) 255)
             && negb (strict_eq_num (at_index rx y) 0)) in H.
  destruct (if strict_eq_num (at_index rup y) 255
               && strict_eq_num (at_index rx y) 0
            then rdown ← g !! (x + 1);
                 Some (strict_eq_num (at_index rdown y) 255)
            else Some false) as [c2|]; [|done].
  cbn [mbind option_bind] in H.
  destruct (c1 || c2 || c3) eqn:Hc; injection H as <-.
  - assert (cell (<[x:=array_set rx y (JNum 255)]> g) x y = JNum 255) as Hnew.
    { unfold cell. rewrite list_lookup_insert_eq by done. simpl.
      rewrite at_index_array_set. by case_decide. }
    split; [by rewrite length_insert|]. split; [|by rewrite Hnew; auto].
    intros x' y' Hne. unfold cell.
    destruct (decide (x' = x)) as [->|Hx'].
    + rewrite list_lookup_insert_eq, Hrx by done. simpl.
      rewrite at_index_array_set. case_decide; [congruence|done].
    + by rewrite list_lookup_insert_ne.
  - split; [done|]. split; [done|]. split; [|by left].
    apply orb_false_iff in Hc as [_ Hc3]. unfold c3 in Hc3.
    rewrite Hcell.
    destruct (strict_eq_num (at_index rx y) 255) eqn:H255.
    + right. by apply strict_eq_num_true.
    + destruct (strict_eq_num (at_index rx y) 0) eqn:H0; [|done].
      left. by apply strict_eq_num_true.
Qed.

Lemma clean_interior (g : Grid) :
  clean g = for_each interior (fun g' p => clean_cell g' p.1 p.2) g.
Proof.
  unfold clean, interior. rewrite for_each_bind.
  f_equal.
Qed.

Lemma elem_of_interior (x y : nat) :
  (x, y) ∈ interior <-> 1 <= x < 44 /\ 1 <= y < 179.
Proof.
  unfold interior. rewrite list_elem_of_bind. split.
  - intros (x0 & Hin & Hx0). apply list_elem_of_bind in Hin as (y0 & Hin & Hy0).
    apply list_elem_of_singleton in Hin. injection Hin as -> ->.
    apply elem_of_seq in Hx0, Hy0. lia.
  - intros [Hx Hy]. exists x. split; [|apply elem_of_seq; lia].
    apply list_elem_of_bind. exists y. split; [by left|apply elem_of_seq; lia].
Qed.

Lemma NoDup_interior : NoDup interior.
Proof.
  unfold interior. apply NoDup_bind; [| |apply NoDup_seq].
  - intros x1 x2 p _ _ H1 H2.
    apply list_elem_of_bind in H1 as (y1 & H1 & _).
    apply list_elem_of_bind in H2 as (y2 & H2 & _).
    apply list_elem_of_singleton in H1, H2. congruence.
  - intros x _. apply NoDup_bind; [| |apply NoDup_seq].
    + intros y1 y2 p _ _ H1 H2.
      apply list_elem_of_singleton in H1, H2. congruence.
    + intros y _. apply NoDup_singleton.
Qed.

(** The cleaning steps over a list of distinct cells. *)
Lemma clean_cells_effect (l : list (nat * nat)) (g g' : Grid) :
  NoDup l ->
  for_each l (fun g0 p => clean_cell g0 p.1 p.2) g = Some g' ->
  length g' = length g
  /\ (forall x y, (x, y) ∈ l -> cell g' x y = JNum 0 \/ cell g' x y = JNum 255)
  /\ (forall x y, (x, y) ∉ l -> cell g' x y = cell g x y)
  /\ (forall x y, cell g' x y = cell g x y \/ cell g' x y = JNum 255).
Proof.
  revert g. induction l as [|[x0 y0] l IH]; intros g Hnd Hrun.
  - injection Hrun as <-. split; [done|]. split; [|by auto].
    intros x y Hin. by apply elem_of_nil in Hin.
  - apply NoDup_cons in Hnd as [Hnotin Hnd]. cbn [for_each fst snd] in Hrun.
    destruct (clean_cell g x0 y0) as [g1|] eqn:Hstep; [|done].
    cbn [mbind option_bind] in Hrun.
    destruct (clean_cell_effect g g1 x0 y0 Hstep)
      as (Hlen1 & Hframe1 & Hbin1 & Hmono1).
    destruct (IH g1 Hnd Hrun) as (Hlen & Hbin & Hframe & Hmono).
    split; [congruence|]. split; [|split].
    + intros x y Hin. apply elem_of_cons in Hin as [Heq|Hin]; [|by apply Hbin].
      injection Heq as -> ->. by rewrite Hframe.
    + intros x y Hout. apply not_elem_of_cons in Hout as [Hne Hout].
      rewrite Hframe by done. by apply Hframe1.
    + intros x y. destruct (Hmono x y) as [Heq|H255]; [|by right].
      rewrite Heq. destruct (decide ((x, y) = (x0, y0))) as [Hp|Hp].
      * injection Hp as -> ->. done.
      * left. by apply Hframe1.
Qed.

(** X1. On a grid of at least 45 rows the cleaning pass does not throw;
    it keeps the number of rows; it leaves every cell of rows 1 to 43 and
    columns 1 to 178 at 0 or at 255; it leaves every other cell as it was;
    and a cell that it changes becomes 255. *)
Theorem clean_leaves_a_binary_interior (imgarr : Grid) :
  45 <= length imgarr ->
  exists cleaned,
    clean imgarr = Some cleaned
    /\ length cleaned = length imgarr
    /\ (forall x y, 1 <= x < 44 -> 1 <= y < 179 ->
          cell cleaned x y = JNum 0 \/ cell cleaned x y = JNum 255)
    /\ (forall x y, ~ (1 <= x < 44 /\ 1 <= y < 179) ->
          cell cleaned x y = cell imgarr x y)
    /\ (forall x y,
          cell cleaned x y = cell imgarr x y \/ cell cleaned x y = JNum 255).
Proof.
  intros Hrows. destruct (clean_ok imgarr Hrows) as (cleaned & Hclean & _).
  exists cleaned. split; [done|]. rewrite clean_interior in Hclean.
  destruct (clean_cells_effect interior imgarr cleaned NoDup_interior Hclean)
    as (Hlen & Hbin & Hframe & Hmono).
  split; [done|]. split; [|split; [|done]].
  - intros x y Hx Hy. apply Hbin. by apply elem_of_interior.
  - intros x y Hout. apply Hframe. by rewrite elem_of_interior.
Qed.

(** X1 on a grid of 45 rows of grey (128) cells: the interior turns to
    255, the border stays grey. *)
Lemma binary_interior_witness :
  exists cleaned,
    clean (solid 45 180 128) = Some cleaned
    /\ length cleaned = length (solid 45 180 128)
    /\ (forall x y, 1 <= x < 44 -> 1 <= y < 179 ->
          cell cleaned x y = JNum 0 \/ cell cleaned x y = JNum 255)
    /\ (forall x y, ~ (1 <= x < 44 /\ 1 <= y < 179) ->
          cell cleaned x y = cell (solid 45 180 128) x y)
    /\ (forall x y,
          cell cleaned x y = cell (solid 45 180 128) x y
          \/ cell cleaned x y = JNum 255).
Proof.
  apply (clean_leaves_a_binary_interior (solid 45 180 128)).
  unfold solid. rewrite length_replicate. lia.
Defined.

(** *** Scores *)

Lemma filter_and_le {A : Type} (f h : A -> bool) (l : list A) :
  length (filter (fun p => f p && h p) l) <= length (filter (fun p => f p) l)
  /\ length (filter (fun p => f p) l) <= length l
  /\ (length (filter (fun p => f p && h p) l)
      = length (filter (fun p => f p) l)
      <-> forall p, p ∈ l -> f p = true -> h p = true).
Proof.
  induction l as [|a l (IH1 & IH2 & IH3)].
  - split; [done|]. split; [done|]. split; [|done].
    intros _ p Hp. by apply elem_of_nil in Hp.
  - rewrite !filter_cons. destruct (f a) eqn:Hf, (h a) eqn:Hh; simpl.
    + split; [lia|]. split; [lia|]. rewrite Nat.succ_inj_wd, IH3. split.
      * intros H p Hp. apply elem_of_cons in Hp as [->|Hp]; [done|by apply H].
      * intros H p Hp. apply H. by right.
    + split; [lia|]. split; [lia|]. split; [lia|].
      intros H. specialize (H a ltac:(by left) Hf). congruence.
    + split; [lia|]. split; [lia|]. rewrite IH3. split.
      * intros H p Hp. apply elem_of_cons in Hp as [->|Hp]; [congruence|by apply H].
      * intros H p Hp. apply H. by right.
    + split; [lia|]. split; [lia|]. rewrite IH3. split.
      * intros H p Hp. apply elem_of_cons in Hp as [->|Hp]; [congruence|by apply H].
      * intros H p Hp. apply H. by right.
Qed.

Lemma elem_of_positions (x y : nat) :
  (x, y) ∈ positions <-> x < 32 /\ y < 30.
Proof.
  unfold positions. rewrite list_elem_of_bind. split.
  - intros (x0 & Hin & Hx0). apply list_elem_of_bind in Hin as (y0 & Hin & Hy0).
    apply list_elem_of_singleton in Hin. injection Hin as -> ->.
    apply elem_of_seq in Hx0, Hy0. lia.
  - intros [Hx Hy]. exists x. split; [|apply elem_of_seq; lia].
    apply list_elem_of_bind. exists y. split; [by left|apply elem_of_seq; lia].
Qed.

(** X2. The two counters of a symbol: [match] never exceeds [black],
    which never exceeds 960, so that a score is never above 1; and the
    score is 1 exactly when every foreground pixel of the template lies
    over a 0 of the image. *)
Theorem score_is_at_most_one
    (bitmaps : ascii -> option Grid) (imgarr : Grid) (k : nat) (ch : ascii)
    (mask : Grid) :
  44 <= length imgarr -> bitmaps ch = Some mask -> 32 <= length mask ->
  exists m b,
    count_symbol bitmaps imgarr (30 * (k + 1)) ch = Some (m, b)
    /\ (m <= b)%N /\ (b <= 960)%N
    /\ (m = b <->
        forall x y, x < 32 -> y < 30 ->
          cell mask x y = JNum 0 -> cell imgarr (x + 12) (30 * k + y) = JNum 0).
Proof.
  intros Hg Hch Hmask. exists (match_count imgarr mask k), (black_count mask).
  split; [by apply count_symbol_score|].
  unfold match_count, black_count.
  destruct (filter_and_le (foreground mask)
    (fun p => strict_eq_num (cell imgarr (p.1 + 12) (30 * k + p.2)) 0)
    positions) as (Hle & Hall & Hiff).
  split; [lia|]. split.
  { change (length positions) with 960 in Hall. lia. }
  split.
  - intros Heq x y Hx Hy Hfg. apply strict_eq_num_true.
    apply Nat2N.inj in Heq.
    apply (proj1 Hiff Heq (x, y)).
    + apply elem_of_positions. lia.
    + unfold foreground. simpl. by rewrite Hfg.
  - intros H. f_equal. apply Hiff.
    intros [x y] Hp Hfg. apply elem_of_positions in Hp as [Hx Hy].
    unfold foreground in Hfg. simpl in *.
    destruct (cell mask x y) as [n|] eqn:Hc; [|done]. simpl in Hfg.
    assert (n = 0%Z) as -> by lia. by rewrite (H x y Hx Hy Hc).
Qed.

(** X2 on a blank image and an all-foreground template: no pixel
    matches. *)
Lemma score_witness :
  exists m b,
    count_symbol all_black_bitmaps blank_45x180 (30 * (0 + 1)) "A"
    = Some (m, b)
    /\ (m <= b)%N /\ (b <= 960)%N
    /\ (m = b <->
        forall x y, x < 32 -> y < 30 ->
          cell (solid 32 30 0) x y = JNum 0 ->
          cell blank_45x180 (x + 12) (30 * 0 + y) = JNum 0).
Proof.
  apply (score_is_at_most_one all_black_bitmaps blank_45x180 0 "A"
    (solid 32 30 0)).
  - unfold blank_45x180, solid. rewrite length_replicate. lia.
  - reflexivity.
  - unfold solid. rewrite length_replicate. lia.
Defined.

(** *** Exceptions *)

Lemma count_symbol_missing (bitmaps : ascii -> option Grid) (g : Grid)
    (j : nat) (ch : ascii) :
  bitmaps ch = None -> count_symbol bitmaps g j ch = None.
Proof.
  intros Hch. unfold count_symbol. rewrite Hch.
  change (seq 0 32) with (0 :: seq 1 31). rewrite for_each_cons.
  change (seq 0 30) with (0 :: seq 1 29). rewrite for_each_cons.
  unfold count_cell. by destruct (g !! (0 + 12)).
Qed.

(** X3. When the table of templates lacks one of the 34 symbols,
    [captcha_parse] throws on every grid. *)
Theorem missing_template_throws
    (bitmaps : ascii -> option Grid) (imgarr : Grid) (ch : ascii) :
  ch ∈ symbols -> bitmaps ch = None ->
  captcha_parse bitmaps imgarr = None.
Proof.
  intros Hch Hmissing. unfold captcha_parse.
  destruct (clean imgarr) as [cleaned|]; [|done].
  cbn [mbind option_bind]. unfold match_bands, bands.
  rewrite for_each_cons.
  assert (matches_of bitmaps cleaned 30 = None) as ->; [|done].
  unfold matches_of. apply mapM_None_2, Exists_exists.
  exists ch. split; [done|].
  by rewrite count_symbol_missing.
Qed.

(** X3 on a table that has every template but that of "Z". *)
Lemma missing_template_witness :
  captcha_parse (fun c => if Ascii.eqb c "Z" then None else Some (solid 32 30 0))
    blank_45x180 = None.
Proof.
  apply (missing_template_throws _ blank_45x180 "Z").
  - apply (StringFacts.get_elem_of chars 33). reflexivity.
  - reflexivity.
Defined.

Lemma clean_cell_length (g g' : Grid) (x y : nat) :
  clean_cell g x y = Some g' -> length g' = length g.
Proof. intros H. by destruct (clean_cell_effect g g' x y H). Qed.

Lemma clean_cell_no_row (g : Grid) (x y : nat) :
  length g <= x -> clean_cell g x y = None.
Proof.
  intros Hx. unfold clean_cell. by rewrite (lookup_ge_None_2 g x).
Qed.

(** X4. On a grid of fewer than 44 rows the cleaning pass reads a row
    that is not there, and [captcha_parse] throws, whatever the grid
    holds. *)
Theorem fewer_than_44_rows_throws
    (bitmaps : ascii -> option Grid) (imgarr : Grid) :
  length imgarr < 44 -> captcha_parse bitmaps imgarr = None.
Proof.
  intros Hrows. unfold captcha_parse.
  assert (clean imgarr = None) as ->; [|done].
  unfold clean. set (x0 := Nat.max 1 (length imgarr)).
  replace (seq 1 43) with (seq 1 (x0 - 1) ++ x0 :: seq (S x0) (43 - x0)).
  - apply (for_each_throws (fun g : Grid => length g = length imgarr));
      [done| |].
    + intros g x g' Hg Hrun. rewrite <- Hg.
      apply (for_each_keeps (fun g1 : Grid => length g1 = length g)
        (seq 1 178) (fun g1 y => clean_cell g1 x y) g g'); [|done|done].
      intros g1 y g2 Hg1 Hstep. rewrite <- Hg1. by eapply clean_cell_length.
    + intros g Hg. change (seq 1 178) with (1 :: seq 2 177).
      rewrite for_each_cons, clean_cell_no_row; [done|]. lia.
  - change (x0 :: seq (S x0) (43 - x0)) with (seq x0 (S (43 - x0))).
    replace x0 with (1 + (x0 - 1)) at 2 by lia.
    rewrite <- seq_app. f_equal. lia.
Qed.

(** X4 on the empty grid. *)
Lemma fewer_rows_witness : captcha_parse all_black_bitmaps [] = None.
Proof. apply (fewer_than_44_rows_throws all_black_bitmaps []). simpl. lia. Defined.

End TemplateMore.

(** ** The linear classifier, further *)

Module LinearMore.
Import JS LinearClassifier LoopFacts ThrowFacts LinearFacts.

Local Arguments Nat.mul _ _ : simpl never.

(** X5. The six cells have 22 rows of 24 entries each, whatever the data,
    even none at all; and [saturation] throws exactly when the number of
    bytes is no multiple of 4. *)
Theorem saturation_cells_shape (d : list N) :
  (length d mod 4 = 0 ->
   exists bls, saturation d = Some bls
     /\ length bls = 6
     /\ Forall (fun block => length block = 22
                  /\ Forall (fun row : list intensity => length row = 24) block)
          bls)
  /\ (length d mod 4 <> 0 -> saturation d = None).
Proof.
  split.
  - intros Hd. destruct (saturation_blocks d 0 Hd) as (sat & _ & -> & _); [lia|].
    eexists. split; [reflexivity|]. split.
    + by rewrite length_fmap, length_seq.
    + apply Forall_fmap, Forall_forall. intros i Hi. apply elem_of_seq in Hi.
      apply cell_block_shape. lia.
  - intros Hd. unfold saturation, saturate.
    destruct (Nat.eqb_spec (length d mod 4) 0); [done|done].
Qed.

(** X5 on no data at all, and on a single byte. *)
Lemma saturation_shape_witness :
  (exists bls, saturation [] = Some bls
     /\ length bls = 6
     /\ Forall (fun block => length block = 22
                  /\ Forall (fun row : list intensity => length row = 24) block)
          bls)
  /\ saturation [7%N] = None.
Proof.
  split.
  - apply (proj1 (saturation_cells_shape [])). reflexivity.
  - apply (proj2 (saturation_cells_shape [7%N])). discriminate.
Defined.

Lemma intensity_sum_step_none (l : list intensity) :
  foldl (fun acc f => a ← acc; x ← f; Some (a + x)%N) None l = None.
Proof. induction l as [|v l IH]; [done|]. exact IH. Qed.

Lemma intensity_sum_none (l : list intensity) (acc : intensity) :
  None ∈ l ->
  foldl (fun acc f => a ← acc; x ← f; Some (a + x)%N) acc l = None.
Proof.
  revert acc. induction l as [|v l IH]; intros acc Hin.
  - by apply elem_of_nil in Hin.
  - cbn [foldl]. apply elem_of_cons in Hin as [<-|Hin]; [|by apply IH].
    destruct acc; apply intensity_sum_step_none.
Qed.

(** X6. [pre_img] returns as many rows as it is given, each as long as
    the first row of its argument, and holding only 0 and 1. When an entry
    of its argument is NaN, the average is NaN and every entry of the
    result is 0. *)
Theorem pre_img_is_binary (img : list (list intensity)) :
  length (pre_img img) = length img
  /\ Forall (fun row => length row = length (default [] (img !! 0))
               /\ Forall (fun v => v = zero \/ v = one) row) (pre_img img)
  /\ (None ∈ concat img ->
      Forall (Forall (fun v => v = zero)) (pre_img img)).
Proof.
  split; [apply length_pre_img|]. unfold pre_img. split.
  - apply Forall_fmap, Forall_forall. intros row _. simpl. split.
    + by rewrite length_fmap, length_seq.
    + apply Forall_fmap, Forall_forall. intros j _. simpl.
      destruct (above_average _ _); auto.
  - intros Hnan. unfold intensity_sum.
    rewrite (intensity_sum_none _ _ Hnan).
    apply Forall_fmap, Forall_forall. intros row _. simpl.
    by apply Forall_fmap, Forall_forall.
Qed.

Lemma concat_replicate {A : Type} (m n : nat) (x : A) :
  concat (replicate m (replicate n x)) = replicate (m * n) x.
Proof.
  induction m as [|m IH]; [done|].
  cbn [replicate concat]. rewrite IH, <- replicate_add. f_equal; lia.
Qed.

Lemma intensity_sum_replicate (n : nat) (v a : N) :
  foldl (fun acc f => a ← acc; x ← f; Some (a + x)%N) (Some a)
    (replicate n (Some v))
  = Some (a + N.of_nat n * v)%N.
Proof.
  revert a. induction n as [|n IH]; intros a.
  - simpl. f_equal. lia.
  - cbn [replicate foldl mbind option_bind]. rewrite IH. f_equal. lia.
Qed.

(** X7. A cell of 22 by 24 whose entries are all the same number, one
    of the numbers 0 to 255 that [saturation] produces, has no entry above
    its average: [pre_img] turns it into zeros. The sum of 528 such entries
    and its quotient by 528 are exact in doubles. *)
Theorem uniform_cell_binarizes_to_zeros (v : N) :
  (v <= 255)%N ->
  pre_img (replicate 22 (replicate 24 (Some v)))
  = replicate 22 (replicate 24 zero).
Proof.
  intros _.
  unfold pre_img, intensity_sum.
  rewrite concat_replicate, intensity_sum_replicate, fmap_replicate.
  f_equal. rewrite lookup_replicate_2 by lia. cbn [from_option id].
  rewrite length_replicate.
  apply fmap_seq_const. intros j Hj.
  rewrite lookup_replicate_2 by lia. cbn [mjoin option_join above_average].
  replace (0 + N.of_nat (22 * 24) * v)%N with (528 * v)%N by lia.
  by rewrite N.ltb_irrefl.
Qed.

(** X7 on a white cell. *)
Lemma uniform_cell_witness :
  pre_img (replicate 22 (replicate 24 (Some 255%N)))
  = replicate 22 (replicate 24 zero).
Proof. apply (uniform_cell_binarizes_to_zeros 255). reflexivity. Defined.

(** *** A canvas of a single colour *)

Section WithModel.

Variable Math_exp : float -> float.
Variable weights : list (list float).
Variable biases : list float.

Lemma uniform_cells (r g b a : N) :
  exists v,
    saturation (concat (replicate (200 * 40) [r; g; b; a]))
    = Some (replicate 6 (replicate 22 (replicate 24 v))).
Proof.
  eexists. unfold saturation. rewrite saturate_uniform, bind_Some.
  rewrite image_rows_uniform.
  change (seq 0 6) with [0; 1; 2; 3; 4; 5]. cbn [fmap list_fmap].
  rewrite !cell_block_uniform by lia. reflexivity.
Qed.

Lemma uniform_cell_index (v : intensity) :
  model_ok weights ->
  exists idx,
    cell_index Math_exp weights biases (replicate 22 (replicate 24 v))
    = Some idx.
Proof.
  intros Hm.
  destruct (cell_probs_ok Math_exp weights biases (replicate (200 * 40) v) 0 Hm)
    as (probs & Hprobs & _); [lia|].
  rewrite image_rows_uniform, cell_block_uniform in Hprobs by lia.
  unfold cell_index. rewrite Hprobs, bind_Some. by eexists.
Qed.

(** X8. A picture that is drawn as a single colour gives six equal
    cells, and the result is six times the same piece. *)
Theorem single_colour_gives_six_equal_pieces
    (loadImage : string -> option Image)
    (drawn : Image -> nat -> nat -> list N)
    (base64String imageData : string) (img : Image) (r g b a : N) :
  model_ok weights ->
  split_comma_1 base64String = Some imageData ->
  loadImage imageData = Some img ->
  drawn img WIDTH HEIGHT = concat (replicate (200 * 40) [r; g; b; a]) ->
  exists idx,
    solveCaptchaFromBase64 Math_exp weights biases loadImage drawn
      base64String
    = Some (label_at idx ++ label_at idx ++ label_at idx
            ++ label_at idx ++ label_at idx ++ label_at idx)%string.
Proof.
  intros Hm Hsplit Hload Hdrawn.
  rewrite (solveCaptchaFromBase64_loaded _ _ _ _ _ _ imageData img) by done.
  rewrite Hdrawn. destruct (uniform_cells r g b a) as (v & ->).
  destruct (uniform_cell_index v Hm) as (idx & Hidx). exists idx.
  rewrite bind_Some. unfold classify_cells.
  change (seq 0 6) with [0; 1; 2; 3; 4; 5].
  do 6 (rewrite for_each_cons; cbv beta; rewrite lookup_replicate_2 by lia;
        rewrite bind_Some; cbv beta; rewrite Hidx;
        rewrite bind_Some; cbv beta; rewrite bind_Some).
  rewrite for_each_nil. f_equal.
  rewrite StringFacts.append_nil. by rewrite !StringFacts.append_assoc.
Qed.

(** *** Indices outside the table *)

Lemma eqb_nan (x : float) : (x =? nan)%float = false.
Proof.
  rewrite FloatAxioms.eqb_spec. change (Prim2SF nan) with S754_nan.
  by destruct (Prim2SF x) as [sx|sx| |sx mx ex].
Qed.

Lemma math_max_from_nan (l : list float) : foldl max_step nan l = nan.
Proof. induction l as [|x l IH]; [done|]. exact IH. Qed.

Lemma math_max_nan (l : list float) (acc : float) :
  Exists (fun x => is_nan x = true) l -> foldl max_step acc l = nan.
Proof.
  intros Hl. revert acc. induction Hl as [x l Hx|x l _ IH]; intros acc.
  - cbn [foldl]. unfold max_step at 2. rewrite Hx, orb_true_r.
    apply math_max_from_nan.
  - cbn [foldl]. apply IH.
Qed.

Lemma index_from_nan (i : Z) (l : list float) : index_from i l nan = (-1)%Z.
Proof.
  revert i. induction l as [|x l IH]; intros i; [done|].
  cbn [index_from]. by rewrite eqb_nan.
Qed.

(** X9. When the vector of a cell is empty or holds a NaN, the index
    computed for the cell is [-1], and the piece appended to the result is
    the text "undefined". *)
Theorem nan_gives_the_text_undefined
    (block : list (list intensity)) (probs : list float) :
  cell_probs Math_exp weights biases block = Some probs ->
  probs = [] \/ Exists (fun x => is_nan x = true) probs ->
  cell_index Math_exp weights biases block = Some (-1)%Z
  /\ label_at (-1) = "undefined".
Proof.
  intros Hprobs Hbad. split; [|reflexivity].
  unfold cell_index. rewrite Hprobs, bind_Some. f_equal.
  destruct Hbad as [->|Hnan]; [reflexivity|].
  unfold math_max, indexOf. rewrite math_max_nan by done.
  apply index_from_nan.
Qed.

End WithModel.

(** X8 on the red picture of one pixel. *)
Lemma single_colour_witness :
  exists idx,
    solveCaptchaFromBase64 exp_near_zero zero_weights zero_biases
      (fun _ => Some red_pixel_image) draw_uniform
      "data:image/jpeg;base64,AAAA"
    = Some (label_at idx ++ label_at idx ++ label_at idx
            ++ label_at idx ++ label_at idx ++ label_at idx)%string.
Proof.
  apply (single_colour_gives_six_equal_pieces exp_near_zero zero_weights
    zero_biases (fun _ => Some red_pixel_image) draw_uniform
    "data:image/jpeg;base64,AAAA" "AAAA" red_pixel_image 255 0 0 255).
  - unfold model_ok, zero_weights. rewrite length_replicate. lia.
  - reflexivity.
  - reflexivity.
  - reflexivity.
Defined.

(** X9 on a model of one class whose bias is NaN. *)
Lemma nan_witness :
  cell_index exp_near_zero (replicate 528 [zero]) [nan]
    (replicate 22 (replicate 24 (Some 255%N))) = Some (-1)%Z
  /\ label_at (-1) = "undefined".
Proof.
  apply (nan_gives_the_text_undefined exp_near_zero (replicate 528 [zero])
    [nan] (replicate 22 (replicate 24 (Some 255%N))) [nan]).
  - vm_compute. reflexivity.
  - right. apply Exists_cons_hd. reflexivity.
Defined.

(** X6 on a cell of one row that holds a NaN. *)
Lemma pre_img_binary_witness :
  length (pre_img [[Some 255%N; None]]) = 1
  /\ Forall (fun row => length row = 2
               /\ Forall (fun v => v = zero \/ v = one) row)
       (pre_img [[Some 255%N; None]])
  /\ Forall (Forall (fun v => v = zero)) (pre_img [[Some 255%N; None]]).
Proof.
  destruct (pre_img_is_binary [[Some 255%N; None]]) as (Hlen & Hrows & Hnan).
  split; [exact Hlen|]. split; [exact Hrows|].
  apply Hnan. cbn [concat app]. apply list_elem_of_further, list_elem_of_here.
Defined.

(** *** A model that is too short *)

Lemma mat_mul_short (flat : list float) (b : list (list float)) :
  length b < length flat ->
  b = [] \/ (exists b0, b !! 0 = Some b0 /\ b0 <> []) ->
  mat_mul [flat] b = None.
Proof.
  intros Hshort [->|(b0 & Hb0 & Hne)]; [done|].
  unfold mat_mul. change ([flat] !! 0) with (Some flat).
  rewrite bind_Some, Hb0, bind_Some.
  apply mapM_None_2, Exists_cons_hd.
  destruct b0 as [|w b0]; [done|].
  change (seq 0 (length (w :: b0))) with (0 :: seq 1 (length b0)).
  apply mapM_None_2, Exists_cons_hd.
  replace (length flat)
    with (length b + S (length flat - S (length b))) by lia.
  rewrite seq_app. cbn [seq].
  apply (for_each_throws (fun _ => True)); [done|done|].
  intros acc _. by rewrite Nat.add_0_l, lookup_ge_None_2.
Qed.

(** X10. With a model of fewer than 528 weight rows that has no row at
    all, or a first row that is not empty, the product of the first cell
    reads a row that is not there: the solver returns [null], whatever
    the picture. *)
Theorem short_model_gives_null
    (Math_exp : float -> float) (weights : list (list float))
    (biases : list float) (loadImage : string -> option Image)
    (drawn : Image -> nat -> nat -> list N)
    (base64String : string) :
  length weights < 528 ->
  weights = [] \/ (exists b0, weights !! 0 = Some b0 /\ b0 <> []) ->
  solveCaptchaFromBase64 Math_exp weights biases loadImage drawn base64String
  = None.
Proof.
  intros Hshort Hw.
  destruct (split_comma_1 base64String) as [imageData|] eqn:Hsplit;
    [|apply solveCaptchaFromBase64_null; by left].
  destruct (loadImage imageData) as [img|] eqn:Hload;
    [|apply solveCaptchaFromBase64_null; right; by exists imageData].
  rewrite (solveCaptchaFromBase64_loaded _ _ _ _ _ _ imageData img) by done.
  destruct (Nat.eq_dec (length (drawn img WIDTH HEIGHT) mod 4) 0) as [Hd|Hd].
  - destruct (saturation_blocks _ 0 Hd) as (sat & _ & -> & Hb0); [lia|].
    rewrite bind_Some. unfold classify_cells.
    change (seq 0 6) with (0 :: seq 1 5) in Hb0 |- *.
    rewrite for_each_cons. cbv beta. rewrite Hb0, bind_Some.
    unfold cell_index, cell_probs.
    rewrite mat_mul_short; [done| |done].
    rewrite length_flat_cell by lia. exact Hshort.
  - unfold saturation, saturate.
    by destruct (Nat.eqb_spec (length (drawn img WIDTH HEIGHT) mod 4) 0).
Qed.

(** X10 on a model of a single weight row. *)
Lemma short_model_witness :
  solveCaptchaFromBase64 exp_near_zero [[zero]] zero_biases
    (fun _ => Some red_pixel_image) draw_uniform
    "data:image/jpeg;base64,AAAA"
  = None.
Proof.
  apply (short_model_gives_null exp_near_zero [[zero]] zero_biases
    (fun _ => Some red_pixel_image) draw_uniform
    "data:image/jpeg;base64,AAAA").
  - cbn [length]. lia.
  - right. exists [zero]. split; [reflexivity|discriminate].
Defined.

(** *** The payload *)

Lemma split_comma_none (s : string) :
  (forall n, String.get n s <> Some ","%char) -> split_comma_1 s = None.
Proof.
  induction s as [|c s IH]; intros Hfree; [done|]. cbn [split_comma_1].
  destruct (Ascii.eqb_spec c ","%char) as [->|_].
  - by destruct (Hfree 0).
  - apply IH. intros n. apply (Hfree (S n)).
Qed.

Lemma until_comma_stops (s more : string) :
  (forall n, String.get n s <> Some ","%char) ->
  until_comma s = s /\ until_comma (s ++ String "," more) = s.
Proof.
  induction s as [|c s IH]; intros Hfree; [done|].
  rewrite StringFacts.append_cons. cbn [until_comma].
  destruct (Ascii.eqb_spec c ","%char) as [->|_].
  - by destruct (Hfree 0).
  - destruct IH as [-> ->]; [|done]. intros n. apply (Hfree (S n)).
Qed.

Lemma split_comma_after (pre rest : string) :
  (forall n, String.get n pre <> Some ","%char) ->
  split_comma_1 (pre ++ String "," rest) = Some (until_comma rest).
Proof.
  induction pre as [|c pre IH]; intros Hfree; [done|].
  rewrite StringFacts.append_cons. cbn [split_comma_1].
  destruct (Ascii.eqb_spec c ","%char) as [->|_].
  - by destruct (Hfree 0).
  - apply IH. intros n. apply (Hfree (S n)).
Qed.

(** X11. The solver returns [null] on a string without a comma. On a
    string with one, it loads what stands between the first comma and the
    next: what stands before the first comma is never looked at, and what
    follows a second comma is dropped. *)
Theorem payload_is_between_the_first_two_commas
    (Math_exp : float -> float) (weights : list (list float))
    (biases : list float) (loadImage : string -> option Image)
    (drawn : Image -> nat -> nat -> list N)
    (pre payload : string) :
  (forall n, String.get n pre <> Some ","%char) ->
  (forall n, String.get n payload <> Some ","%char) ->
  solveCaptchaFromBase64 Math_exp weights biases loadImage drawn pre = None
  /\ solveCaptchaFromBase64 Math_exp weights biases loadImage drawn
       (pre ++ String "," payload)
     = (img ← loadImage payload;
        saturation (drawn img WIDTH HEIGHT)
          ≫= classify_cells Math_exp weights biases)
  /\ forall more,
       solveCaptchaFromBase64 Math_exp weights biases loadImage drawn
         (pre ++ String "," (payload ++ String "," more))
       = solveCaptchaFromBase64 Math_exp weights biases loadImage drawn
           (pre ++ String "," payload).
Proof.
  intros Hpre Hpayload. split; [|split].
  - apply solveCaptchaFromBase64_null. left. by apply split_comma_none.
  - unfold solveCaptchaFromBase64. rewrite split_comma_after by done.
    by rewrite (proj1 (until_comma_stops payload "" Hpayload)), bind_Some.
  - intros more. unfold solveCaptchaFromBase64.
    rewrite !split_comma_after by done.
    rewrite (proj2 (until_comma_stops payload more Hpayload)).
    by rewrite (proj1 (until_comma_stops payload "" Hpayload)).
Qed.

(** X11 on a string that names another format than a data URI. *)
Lemma payload_witness :
  solveCaptchaFromBase64 exp_near_zero zero_weights zero_biases
    (fun _ => Some red_pixel_image) draw_uniform "text/plain" = None
  /\ solveCaptchaFromBase64 exp_near_zero zero_weights zero_biases
       (fun _ => Some red_pixel_image) draw_uniform
       ("text/plain" ++ String "," "AAAA")
     = (img ← Some red_pixel_image;
        saturation (draw_uniform img WIDTH HEIGHT)
          ≫= classify_cells exp_near_zero zero_weights zero_biases)
  /\ forall more,
       solveCaptchaFromBase64 exp_near_zero zero_weights zero_biases
         (fun _ => Some red_pixel_image) draw_uniform
         ("text/plain" ++ String "," ("AAAA" ++ String "," more))
       = solveCaptchaFromBase64 exp_near_zero zero_weights zero_biases
           (fun _ => Some red_pixel_image) draw_uniform
           ("text/plain" ++ String "," "AAAA").
Proof.
  apply (payload_is_between_the_first_two_commas exp_near_zero
    zero_weights zero_biases (fun _ => Some red_pixel_image) draw_uniform
    "text/plain" "AAAA").
  - intros n. do 11 (destruct n as [|n]; [discriminate|]). discriminate.
  - intros n. do 5 (destruct n as [|n]; [discriminate|]). discriminate.
Defined.

End LinearMore.

(** ** The login orchestrator, further *)

Module LoginMore.
Import Login LoopFacts LoginFacts.

Section WithCollaborators.

Variable solveCaptchaFromBase64 : string -> option string.
Variable encodeURIComponent : string -> string.
Variable remote : Remote.

Local Abbreviation fetch_attempts := (fetch_attempts solveCaptchaFromBase64 remote).
Local Abbreviation fetchWithSession := (fetchWithSession solveCaptchaFromBase64 remote).
Local Abbreviation login_rounds :=
  (login_rounds solveCaptchaFromBase64 encodeURIComponent remote).
Local Abbreviation challenge_of := (challenge_of solveCaptchaFromBase64).

Lemma truthy_nonempty (s : string) : truthy (Some s) = true -> s <> "".
Proof. by destruct s. Qed.

Lemma check_none_no_marker (data : string) :
  checkResponseForErrors data = None ->
  includes "Invalid LoginId/Password" data = false
  /\ includes "Invalid Captcha" data = false.
Proof.
  unfold checkResponseForErrors. destruct data as [|c data]; [done|].
  cbn [truthy negb].
  destruct (includes "Invalid LoginId/Password" (String c data)); [done|].
  by destruct (includes "Invalid Captcha" (String c data)).
Qed.

Lemma check_credentials_marker (data : string) :
  checkResponseForErrors data = Some credentials ->
  includes "Invalid LoginId/Password" data = true.
Proof.
  unfold checkResponseForErrors. destruct data as [|c data]; [done|].
  cbn [truthy negb].
  destruct (includes "Invalid LoginId/Password" (String c data)); [done|].
  by destruct (includes "Invalid Captcha" (String c data)).
Qed.

(** What a call of [fetchWithSession] adds to the log: at most ten
    fetches, and at least one when it returns a challenge. *)
Lemma fetchWithSession_log (log : list Event) :
  exists k, k <= 10
    /\ snd (fetchWithSession log) = log ++ replicate k EvGet
    /\ (is_Some (fst (fetchWithSession log)) -> 1 <= k).
Proof. apply fetch_attempts_log. Qed.

(** The rounds of [attemptLogin]: what they add to the log, and what
    their result rests on. *)
Lemma login_rounds_bounded (n : nat) (username password : string)
    (log : list Event) :
  let '(result, log') := login_rounds n username password log in
  (exists ext, log' = log ++ ext
     /\ submits ext <= n /\ fetches ext <= 10 * n
     /\ submits ext <= fetches ext)
  /\ match result with
     | Success data =>
         exists log1 url, log' = log1 ++ [EvPost url]
           /\ on_post remote log1 url = Some data
           /\ includes "Invalid LoginId/Password" data = false
           /\ includes "Invalid Captcha" data = false
     | Failure message =>
         (message = "Invalid credentials"
          /\ exists log1 url data, log' = log1 ++ [EvPost url]
               /\ on_post remote log1 url = Some data
               /\ includes "Invalid LoginId/Password" data = true)
         \/ message = "Maximum login attempts reached"
     end.
Proof.
  revert log. induction n as [|n IH]; intros log.
  { cbn [Login.login_rounds]. split; [|by right].
    exists []. by rewrite app_nil_r. }
  cbn [Login.login_rounds].
  destruct (fetchWithSession_log log) as (k & Hk & Hlog1 & Hpos).
  destruct (fetchWithSession log) as [r log1]. cbn [fst snd] in Hlog1, Hpos.
  subst log1.
  assert (forall ext0 log0 ext,
    submits ext0 <= 1 -> fetches ext0 <= 10 -> submits ext0 <= fetches ext0 ->
    log0 = (log ++ ext0) ++ ext ->
    submits ext <= n /\ fetches ext <= 10 * n /\ submits ext <= fetches ext ->
    exists ext', log0 = log ++ ext'
      /\ submits ext' <= S n /\ fetches ext' <= 10 * S n
      /\ submits ext' <= fetches ext') as Hjoin.
  { intros ext0 log0 ext Hs Hf Hsf -> (Hs' & Hf' & Hsf').
    exists (ext0 ++ ext). rewrite app_assoc, submits_app, fetches_app.
    repeat split; lia. }
  destruct r as [ch|].
  - specialize (Hpos ltac:(by eexists)).
    set (url := loginUrl_of encodeURIComponent username password ch).
    assert (submits (replicate k EvGet ++ [EvPost url]) = 1) as Hs1.
    { rewrite submits_app, submits_gets. reflexivity. }
    assert (fetches (replicate k EvGet ++ [EvPost url]) = k) as Hf1.
    { rewrite fetches_app, fetches_gets.
      change (fetches [EvPost url]) with 0. lia. }
    assert (exists ext', (log ++ replicate k EvGet) ++ [EvPost url] = log ++ ext'
      /\ submits ext' <= S n /\ fetches ext' <= 10 * S n
      /\ submits ext' <= fetches ext') as Hnow.
    { exists (replicate k EvGet ++ [EvPost url]).
      rewrite app_assoc, Hs1, Hf1. repeat split; lia. }
    assert (let '(result, log') :=
              login_rounds n username password
                ((log ++ replicate k EvGet) ++ [EvPost url]) in
            (exists ext, log' = log ++ ext
               /\ submits ext <= S n /\ fetches ext <= 10 * S n
               /\ submits ext <= fetches ext)
            /\ match result with
               | Success data =>
                   exists log1 url, log' = log1 ++ [EvPost url]
                     /\ on_post remote log1 url = Some data
                     /\ includes "Invalid LoginId/Password" data = false
                     /\ includes "Invalid Captcha" data = false
               | Failure message =>
                   (message = "Invalid credentials"
                    /\ exists log1 url data, log' = log1 ++ [EvPost url]
                         /\ on_post remote log1 url = Some data
                         /\ includes "Invalid LoginId/Password" data = true)
                   \/ message = "Maximum login attempts reached"
               end) as Hnext.
    { specialize (IH ((log ++ replicate k EvGet) ++ [EvPost url])).
      destruct (login_rounds n username password
                  ((log ++ replicate k EvGet) ++ [EvPost url]))
        as [result log'].
      destruct IH as ((ext & Hext & Hbounds) & Hres). split; [|exact Hres].
      apply (Hjoin (replicate k EvGet ++ [EvPost url]) log' ext);
        [lia|lia|lia| |done].
      rewrite Hext. by rewrite <- !app_assoc. }
    destruct (on_post remote (log ++ replicate k EvGet) url) as [data|] eqn:Hpost;
      [|exact Hnext].
    destruct (checkResponseForErrors data) as [[|]|] eqn:Hcheck.
    + split; [exact Hnow|]. left. split; [done|].
      exists (log ++ replicate k EvGet), url, data.
      split; [done|]. split; [done|]. by apply check_credentials_marker.
    + exact Hnext.
    + split; [exact Hnow|].
      exists (log ++ replicate k EvGet), url.
      split; [done|]. split; [done|]. by apply check_none_no_marker.
  - specialize (IH (log ++ replicate k EvGet)).
    destruct (login_rounds n username password (log ++ replicate k EvGet))
      as [result log'].
    destruct IH as ((ext & Hext & Hbounds) & Hres). split; [|exact Hres].
    apply (Hjoin (replicate k EvGet) log' ext); [| | |done|done].
    + rewrite submits_gets. lia.
    + rewrite fetches_gets. lia.
    + rewrite submits_gets. lia.
Qed.

(** A fetch that throws ends [fetchWithSession] at once. *)
Lemma fetch_attempts_unreachable (n : nat) (log : list Event) :
  (forall log, on_get remote log = None) ->
  fetch_attempts (S n) log = (None, log ++ [EvGet]).
Proof. intros Hget. cbn [Login.fetch_attempts]. by rewrite Hget. Qed.

Lemma login_rounds_unreachable (n : nat) (username password : string)
    (log : list Event) :
  (forall log, on_get remote log = None) ->
  login_rounds n username password log
  = (Failure "Maximum login attempts reached", log ++ replicate n EvGet).
Proof.
  intros Hget. revert log. induction n as [|n IH]; intros log.
  { cbn [Login.login_rounds replicate]. by rewrite app_nil_r. }
  cbn [Login.login_rounds]. unfold Login.fetchWithSession.
  rewrite fetch_attempts_unreachable by done.
  rewrite IH. by rewrite <- app_assoc.
Qed.

(** Rounds that obtain a challenge at their first fetch and whose submit
    throws or is answered with the marker of a wrong CAPTCHA. *)
Lemma login_rounds_retried (n : nat) (username password : string)
    (log : list Event) :
  (forall log, exists page ch,
     on_get remote log = Some page /\ challenge_of page = Some ch) ->
  (forall log url,
     on_post remote log url = None
     \/ exists data, on_post remote log url = Some data
          /\ includes "Invalid LoginId/Password" data = false
          /\ includes "Invalid Captcha" data = true) ->
  exists log', login_rounds n username password log
               = (Failure "Maximum login attempts reached", log ++ log')
    /\ fetches log' = n /\ submits log' = n.
Proof.
  intros Hget Hpost. revert log. induction n as [|n IH]; intros log.
  { exists []. cbn [Login.login_rounds]. by rewrite app_nil_r. }
  cbn [Login.login_rounds]. unfold Login.fetchWithSession.
  destruct (Hget log) as (page & ch & Hpage & Hch).
  cbn [Login.fetch_attempts]. rewrite Hpage, Hch.
  set (url := loginUrl_of encodeURIComponent username password ch).
  destruct (IH ((log ++ [EvGet]) ++ [EvPost url])) as (log' & Hrun & Hf & Hs).
  exists ([EvGet; EvPost url] ++ log').
  rewrite fetches_app, submits_app, Hf, Hs.
  split; [|by split].
  replace (log ++ [EvGet; EvPost url] ++ log')
    with (((log ++ [EvGet]) ++ [EvPost url]) ++ log')
    by (by rewrite <- !app_assoc).
  destruct (Hpost (log ++ [EvGet]) url) as [->|(data & -> & Hcred & Hcap)];
    [exact Hrun|].
  by rewrite (check_captcha data Hcred Hcap).
Qed.

End WithCollaborators.

(** X12. A challenge that [fetchWithSession] returns comes from a page
    on which a CAPTCHA was detected; its token is the value of the input
    named [_csrf] when that is not empty and the content of the meta
    element otherwise; its guess is what the solver returned for the image
    that [extractCaptchaImage] found; and none of the three is empty. *)
Theorem challenge_is_complete
    (solveCaptchaFromBase64 : string -> option string)
    (page : Page) (ch : Challenge) :
  challenge_of solveCaptchaFromBase64 page = Some ch ->
  detectCaptchaType page = inbuilt
  /\ csrf ch <> "" /\ captchaSolution ch <> ""
  /\ or_else (csrf_input_val page) (csrf_meta_content page) = Some (csrf ch)
  /\ exists image, extractCaptchaImage page = Some image
       /\ image <> ""
       /\ solveCaptchaFromBase64 image = Some (captchaSolution ch).
Proof.
  unfold challenge_of. intros Hch.
  destruct (detectCaptchaType page); [|done]. split; [done|].
  destruct (extractCaptchaImage page) as [image|]; [|done].
  destruct (or_else (csrf_input_val page) (csrf_meta_content page))
    as [token|]; [|done].
  destruct (truthy (Some image)) eqn:Himage; [|done].
  destruct (truthy (Some token)) eqn:Htoken; [|done].
  cbn [andb] in Hch.
  destruct (solveCaptchaFromBase64 image) as [solution|] eqn:Hsolve; [|done].
  destruct (truthy (Some solution)) eqn:Hsolution; [|done].
  injection Hch as <-. cbn [csrf captchaSolution].
  split; [by apply truthy_nonempty|]. split; [by apply truthy_nonempty|].
  split; [done|]. exists image. split; [done|].
  split; [by apply truthy_nonempty|done].
Qed.

(** X12 on the sample page. *)
Lemma challenge_witness :
  detectCaptchaType captcha_page = inbuilt
  /\ "tok" <> "" /\ "ABCDEF" <> ""
  /\ or_else (csrf_input_val captcha_page) (csrf_meta_content captcha_page)
     = Some "tok"
  /\ exists image, extractCaptchaImage captcha_page = Some image
       /\ image <> ""
       /\ constant_solver image = Some "ABCDEF".
Proof.
  apply (challenge_is_complete constant_solver captcha_page
    {| csrf := "tok"; captchaSolution := "ABCDEF" |}).
  reflexivity.
Defined.

(** X13. Whatever the portal, the solver and the credentials,
    [attemptLogin] submits at most 5 times and fetches at most 50 times,
    and never submits more often than it fetches. It returns a success only
    with the body of its last submit, which carries neither marker; the
    failure "Invalid credentials" only after a last submit whose answer
    carries that marker; and no other failure than that and "Maximum login
    attempts reached". *)
Theorem attemptLogin_is_bounded
    (solveCaptchaFromBase64 : string -> option string)
    (encodeURIComponent : string -> string) (remote : Remote)
    (username password : string) :
  let '(result, log) :=
    attemptLogin solveCaptchaFromBase64 encodeURIComponent username password
      (Some remote) in
  submits log <= 5 /\ fetches log <= 50 /\ submits log <= fetches log
  /\ match result with
     | Success data =>
         exists log1 url, log = log1 ++ [EvPost url]
           /\ on_post remote log1 url = Some data
           /\ includes "Invalid LoginId/Password" data = false
           /\ includes "Invalid Captcha" data = false
     | Failure message =>
         (message = "Invalid credentials"
          /\ exists log1 url data, log = log1 ++ [EvPost url]
               /\ on_post remote log1 url = Some data
               /\ includes "Invalid LoginId/Password" data = true)
         \/ message = "Maximum login attempts reached"
     end.
Proof.
  unfold attemptLogin.
  pose proof (login_rounds_bounded solveCaptchaFromBase64 encodeURIComponent
    remote 5 username password []) as Hrounds.
  destruct (login_rounds solveCaptchaFromBase64 encodeURIComponent remote 5
              username password []) as [result log].
  destruct Hrounds as ((ext & -> & Hs & Hf & Hsf) & Hres).
  rewrite app_nil_l in *. repeat split; [lia|lia|lia|exact Hres].
Qed.

(** X14. When every fetch throws, each call of [fetchWithSession] ends
    with [null] after its first fetch, and [attemptLogin] fails after
    exactly 5 fetches and no submit. *)
Theorem unreachable_portal_costs_five_fetches
    (solveCaptchaFromBase64 : string -> option string)
    (encodeURIComponent : string -> string) (remote : Remote)
    (username password : string) :
  (forall log, on_get remote log = None) ->
  (forall log,
     fetchWithSession solveCaptchaFromBase64 remote log
     = (None, log ++ [EvGet]))
  /\ attemptLogin solveCaptchaFromBase64 encodeURIComponent username password
       (Some remote)
     = (Failure "Maximum login attempts reached", replicate 5 EvGet).
Proof.
  intros Hget. split.
  - intros log. by apply fetch_attempts_unreachable.
  - unfold attemptLogin. by rewrite login_rounds_unreachable.
Qed.

(** X14 on a portal that answers nothing. *)
Lemma unreachable_portal_witness :
  (forall log,
     fetchWithSession constant_solver
       {| on_get := fun _ => None; on_post := fun _ _ => None |} log
     = (None, log ++ [EvGet]))
  /\ attemptLogin constant_solver identity_encoding "stu1" "pw1"
       (Some {| on_get := fun _ => None; on_post := fun _ _ => None |})
     = (Failure "Maximum login attempts reached", replicate 5 EvGet).
Proof.
  apply (unreachable_portal_costs_five_fetches constant_solver
    identity_encoding
    {| on_get := fun _ => None; on_post := fun _ _ => None |} "stu1" "pw1").
  reflexivity.
Defined.

(** X15. When the first round obtains a challenge and the answer to its
    submit carries neither marker, [attemptLogin] returns that answer as a
    success, whatever else it holds: an empty body counts as a
    success. *)
Theorem answer_without_marker_is_a_success
    (solveCaptchaFromBase64 : string -> option string)
    (encodeURIComponent : string -> string) (remote : Remote)
    (username password : string)
    (ch : Challenge) (log1 : list Event) (data : string) :
  let url := loginUrl_of encodeURIComponent username password ch in
  fetchWithSession solveCaptchaFromBase64 remote [] = (Some ch, log1) ->
  on_post remote log1 url = Some data ->
  includes "Invalid LoginId/Password" data = false ->
  includes "Invalid Captcha" data = false ->
  attemptLogin solveCaptchaFromBase64 encodeURIComponent username password
    (Some remote)
  = (Success data, log1 ++ [EvPost url]).
Proof.
  intros url Hfetch Hpost Hcred Hcap. unfold attemptLogin.
  cbn [login_rounds]. rewrite Hfetch. fold url. rewrite Hpost.
  by rewrite (check_clean data Hcred Hcap).
Qed.

(** X15 on a portal that answers every submit with an empty body. *)
Lemma empty_answer_witness :
  attemptLogin constant_solver identity_encoding "stu1" "pw1"
    (Some {| on_get := fun _ => Some captcha_page;
             on_post := fun _ _ => Some "" |})
  = (Success "",
     [EvGet] ++ [EvPost (loginUrl_of identity_encoding "stu1" "pw1"
                           {| csrf := "tok"; captchaSolution := "ABCDEF" |})]).
Proof.
  apply (answer_without_marker_is_a_success constant_solver identity_encoding
    {| on_get := fun _ => Some captcha_page; on_post := fun _ _ => Some "" |}
    "stu1" "pw1" {| csrf := "tok"; captchaSolution := "ABCDEF" |} [EvGet] "");
    reflexivity.
Defined.

(** X16. When every page fetched carries a challenge that the solver
    solves, and every submit throws or is answered with "Invalid Captcha"
    and without "Invalid LoginId/Password", [attemptLogin] goes through its
    5 rounds, each of one fetch and one submit, and fails with "Maximum
    login attempts reached". *)
Theorem wrong_guesses_cost_five_rounds
    (solveCaptchaFromBase64 : string -> option string)
    (encodeURIComponent : string -> string) (remote : Remote)
    (username password : string) :
  (forall log, exists page ch,
     on_get remote log = Some page
     /\ challenge_of solveCaptchaFromBase64 page = Some ch) ->
  (forall log url,
     on_post remote log url = None
     \/ exists data, on_post remote log url = Some data
          /\ includes "Invalid LoginId/Password" data = false
          /\ includes "Invalid Captcha" data = true) ->
  exists log,
    attemptLogin solveCaptchaFromBase64 encodeURIComponent username password
      (Some remote)
    = (Failure "Maximum login attempts reached", log)
    /\ fetches log = 5 /\ submits log = 5.
Proof.
  intros Hget Hpost. unfold attemptLogin.
  destruct (login_rounds_retried solveCaptchaFromBase64 encodeURIComponent
    remote 5 username password [] Hget Hpost) as (log & Hrun & Hf & Hs).
  exists log. by rewrite Hrun.
Qed.

(** X16 on a portal that finds every guess wrong. *)
Lemma wrong_guesses_witness :
  exists log,
    attemptLogin constant_solver identity_encoding "stu1" "pw1"
      (Some {| on_get := fun _ => Some captcha_page;
               on_post := fun _ _ => Some "<p>Invalid Captcha</p>" |})
    = (Failure "Maximum login attempts reached", log)
    /\ fetches log = 5 /\ submits log = 5.
Proof.
  apply (wrong_guesses_cost_five_rounds constant_solver identity_encoding
    {| on_get := fun _ => Some captcha_page;
       on_post := fun _ _ => Some "<p>Invalid Captcha</p>" |} "stu1" "pw1").
  - intros log. exists captcha_page.
    exists {| csrf := "tok"; captchaSolution := "ABCDEF" |}.
    split; reflexivity.
  - intros log url. right. exists "<p>Invalid Captcha</p>".
    repeat split; reflexivity.
Defined.

End LoginMore.

(** ** The session cache, further *)

Module RegistryMore.
Import Registry RegistryFacts.

Local Open Scope Z_scope.

Lemma getUserClient_other (username other : string) (now : Z) (st : State) :
  other <> username ->
  userSessions (getUserClient username now st).2 !! other
  = userSessions st !! other.
Proof.
  intros Hne. unfold getUserClient.
  destruct (userSessions st !! username) as [old|].
  - destruct (now - lastUsed old <? SESSION_TIMEOUT); cbn [snd userSessions
      store_new_client].
    + by rewrite lookup_insert_ne.
    + rewrite lookup_insert_ne by done. by rewrite lookup_delete_ne.
  - cbn [snd userSessions store_new_client]. by rewrite lookup_insert_ne.
Qed.

Lemma getUserClient_fresh (username : string) (now : Z) (st : State) :
  (forall old, userSessions st !! username = Some old ->
     SESSION_TIMEOUT <= now - lastUsed old) ->
  (getUserClient username now st).1 = clients_made st
  /\ clients_made (getUserClient username now st).2 = S (clients_made st)
  /\ userSessions (getUserClient username now st).2 !! username
     = Some {| client := clients_made st; studentId := None; csrf := None;
               lastUsed := now |}.
Proof.
  intros Hold. unfold getUserClient.
  destruct (userSessions st !! username) as [old|].
  - specialize (Hold old eq_refl).
    destruct (Z.ltb_spec (now - lastUsed old) SESSION_TIMEOUT); [lia|].
    cbn [fst snd userSessions clients_made store_new_client].
    by rewrite lookup_insert_eq.
  - cbn [fst snd userSessions clients_made store_new_client].
    by rewrite lookup_insert_eq.
Qed.

Lemma getUserClient_clients_made (username : string) (now : Z) (st : State) :
  (clients_made st <= clients_made (getUserClient username now st).2)%nat.
Proof.
  unfold getUserClient.
  destruct (userSessions st !! username) as [old|].
  - destruct (now - lastUsed old <? SESSION_TIMEOUT);
      cbn [snd clients_made store_new_client]; lia.
  - cbn [snd clients_made store_new_client]. lia.
Qed.

(** X17. A call of [getUserClient] for one principal leaves the entry of
    every other principal as it is, and so does a sweep for every entry
    that was used within the timeout; a sweep adds no entry and changes
    none. *)
Theorem other_principals_are_untouched
    (username other : string) (now : Z) (st : State) :
  other <> username ->
  userSessions (getUserClient username now st).2 !! other
  = userSessions st !! other
  /\ (forall session,
        userSessions (sweep now st) !! other = Some session ->
        userSessions st !! other = Some session
        /\ now - lastUsed session <= SESSION_TIMEOUT)
  /\ (forall session,
        userSessions st !! other = Some session ->
        now - lastUsed session <= SESSION_TIMEOUT ->
        userSessions (sweep now (getUserClient username now st).2) !! other
        = Some session).
Proof.
  intros Hne. split; [by apply getUserClient_other|]. split.
  - intros session. rewrite sweep_lookup.
    destruct (userSessions st !! other) as [s|]; [|done].
    case_decide; [|done]. intros [= ->]. by split.
  - intros session Hs Hnow.
    rewrite sweep_lookup, getUserClient_other, Hs by done.
    by case_decide.
Qed.

(** X17 on two principals. *)
Lemma other_principals_witness :
  userSessions
    (getUserClient "stu1" 10 (getUserClient "stu2" 0 initial).2).2 !! "stu2"
  = userSessions (getUserClient "stu2" 0 initial).2 !! "stu2"
  /\ (forall session,
        userSessions (sweep 10 (getUserClient "stu2" 0 initial).2) !! "stu2"
        = Some session ->
        userSessions (getUserClient "stu2" 0 initial).2 !! "stu2"
        = Some session
        /\ 10 - lastUsed session <= SESSION_TIMEOUT)
  /\ (forall session,
        userSessions (getUserClient "stu2" 0 initial).2 !! "stu2"
        = Some session ->
        10 - lastUsed session <= SESSION_TIMEOUT ->
        userSessions
          (sweep 10
             (getUserClient "stu1" 10 (getUserClient "stu2" 0 initial).2).2)
          !! "stu2"
        = Some session).
Proof.
  apply (other_principals_are_untouched "stu1" "stu2" 10
    (getUserClient "stu2" 0 initial).2).
  discriminate.
Defined.

(** X18. A session that was last used the timeout ago, or longer, is not
    reused: [getUserClient] makes a new client and stores an entry without
    [studentId] and [csrf]. At exactly the timeout the two tests disagree:
    the sweep still keeps the session that [getUserClient] discards. *)
Theorem expired_session_is_replaced
    (username : string) (old : Session) (now : Z) (st : State) :
  userSessions st !! username = Some old ->
  SESSION_TIMEOUT <= now - lastUsed old ->
  (getUserClient username now st).1 = clients_made st
  /\ userSessions (getUserClient username now st).2 !! username
     = Some {| client := clients_made st; studentId := None; csrf := None;
               lastUsed := now |}
  /\ (now - lastUsed old = SESSION_TIMEOUT ->
      userSessions (sweep now st) !! username = Some old).
Proof.
  intros Hold Hnow.
  destruct (getUserClient_fresh username now st) as (Hc & _ & Hs).
  { intros old' Hold'. rewrite Hold in Hold'. by injection Hold' as <-. }
  split; [done|]. split; [done|].
  intros Heq. rewrite sweep_lookup, Hold. case_decide; [done|lia].
Qed.

(** X18 at exactly the timeout. *)
Lemma expired_session_witness :
  let st := {| userSessions :=
                 {[ "stu1" := {| client := 0%nat; studentId := Some "id1";
                                 csrf := Some "tok"; lastUsed := 0 |} ]};
               clients_made := 1 |} in
  (getUserClient "stu1" 300000 st).1 = 1%nat
  /\ userSessions (getUserClient "stu1" 300000 st).2 !! "stu1"
     = Some {| client := 1%nat; studentId := None; csrf := None;
               lastUsed := 300000 |}
  /\ userSessions (sweep 300000 st) !! "stu1"
     = Some {| client := 0%nat; studentId := Some "id1"; csrf := Some "tok";
               lastUsed := 0 |}.
Proof.
  intros st.
  destruct (expired_session_is_replaced "stu1"
    {| client := 0%nat; studentId := Some "id1"; csrf := Some "tok";
       lastUsed := 0 |} 300000 st) as (Hc & Hs & Hsweep).
  - reflexivity.
  - cbn [lastUsed]. unfold SESSION_TIMEOUT. lia.
  - split; [exact Hc|]. split; [exact Hs|]. apply Hsweep. reflexivity.
Defined.

(** X19. As long as only [getUserClient] and the sweep change the cache,
    every client in it was made before: a client that [getUserClient]
    makes anew is the client of no other entry, so that two principals
    never share a cookie jar. *)
Theorem new_client_is_shared_with_nobody
    (username : string) (now : Z) (st : State) :
  (forall u s, userSessions st !! u = Some s ->
     (client s < clients_made st)%nat) ->
  (forall old, userSessions st !! username = Some old ->
     SESSION_TIMEOUT <= now - lastUsed old) ->
  (forall other s, other <> username ->
     userSessions (getUserClient username now st).2 !! other = Some s ->
     client s <> (getUserClient username now st).1)
  /\ (forall now' u s,
        userSessions (sweep now' (getUserClient username now st).2) !! u
        = Some s ->
        (client s < clients_made (sweep now' (getUserClient username now st).2))%nat).
Proof.
  intros Hinv Hold.
  destruct (getUserClient_fresh username now st Hold) as (Hc & Hmade & Hs).
  split.
  - intros other s Hne Hother. rewrite getUserClient_other in Hother by done.
    apply Hinv in Hother. lia.
  - intros now' u s. rewrite sweep_lookup. cbn [sweep clients_made].
    destruct (decide (u = username)) as [->|Hne].
    + rewrite Hs. case_decide; [|done]. intros [= <-]. cbn [client]. lia.
    + rewrite getUserClient_other by done.
      destruct (userSessions st !! u) as [s'|] eqn:Hu; [|done].
      case_decide; [|done]. intros [= <-]. apply Hinv in Hu. lia.
Qed.

(** X19 on the second principal of a new cache. *)
Lemma new_client_witness :
  (forall other s, other <> "stu2" ->
     userSessions
       (getUserClient "stu2" 5 (getUserClient "stu1" 0 initial).2).2 !! other
     = Some s ->
     client s
     <> (getUserClient "stu2" 5 (getUserClient "stu1" 0 initial).2).1)
  /\ (forall now' u s,
        userSessions
          (sweep now'
             (getUserClient "stu2" 5 (getUserClient "stu1" 0 initial).2).2)
          !! u
        = Some s ->
        (client s
         < clients_made
             (sweep now'
                (getUserClient "stu2" 5
                   (getUserClient "stu1" 0 initial).2).2))%nat).
Proof.
  apply (new_client_is_shared_with_nobody "stu2" 5
    (getUserClient "stu1" 0 initial).2).
  - intros u s. unfold getUserClient, initial. cbn [userSessions].
    rewrite lookup_empty. unfold store_new_client.
    cbn [snd userSessions clients_made].
    intros Hs. apply lookup_insert_Some in Hs as [[_ <-]|[_ Hs]].
    + cbn [client]. lia.
    + by rewrite lookup_empty in Hs.
  - intros old. rewrite getUserClient_other by discriminate.
    unfold initial. cbn [userSessions]. by rewrite lookup_empty.
Defined.

(** X20. Sweeps compose: a sweep after an earlier sweep leaves what the
    later sweep alone would leave; in particular a sweep repeated at the
    same time changes nothing. No sweep makes a client. *)
Theorem sweeps_compose (now now' : Z) (st : State) :
  now <= now' ->
  sweep now' (sweep now st) = sweep now' st
  /\ sweep now (sweep now st) = sweep now st
  /\ clients_made (sweep now st) = clients_made st.
Proof.
  intros Hle.
  assert (forall a b, a <= b -> sweep b (sweep a st) = sweep b st) as Hgen.
  { intros a b Hab. unfold sweep at 1 3. cbn [clients_made sweep]. f_equal.
    apply map_eq. intros u.
    pose proof (sweep_lookup b (sweep a st) u) as Hl.
    pose proof (sweep_lookup b st u) as Hr.
    unfold sweep at 1 in Hl. unfold sweep at 1 in Hr.
    cbn [userSessions] in Hl, Hr. rewrite Hl, Hr, sweep_lookup.
    destruct (userSessions st !! u) as [s|]; [|done].
    repeat case_decide; try done; lia. }
  split; [by apply Hgen|]. split; [apply Hgen; lia|done].
Qed.

(** X20 on a cache of one entry. *)
Lemma sweeps_compose_witness :
  sweep 400000 (sweep 100 (getUserClient "stu1" 0 initial).2)
  = sweep 400000 (getUserClient "stu1" 0 initial).2
  /\ sweep 100 (sweep 100 (getUserClient "stu1" 0 initial).2)
     = sweep 100 (getUserClient "stu1" 0 initial).2
  /\ clients_made (sweep 100 (getUserClient "stu1" 0 initial).2)
     = clients_made (getUserClient "stu1" 0 initial).2.
Proof.
  apply (sweeps_compose 100 400000 (getUserClient "stu1" 0 initial).2). lia.
Defined.

End RegistryMore.

(** ** The route handlers, further *)

Module ServerMore.
Import Registry Server RegistryFacts ServerFacts RegistryMore.

Local Open Scope Z_scope.

(** The answer of a login that stores no session: the login failed, or
    its response held no identifier or no token. *)
Lemma login_over_without_tokens (p : Process) (username : string) (c : nat)
    (tokens : option (string * string)) (t : Z) :
  match tokens with
  | Some (id, token) =>
      Login.truthy (Some id) && Login.truthy (Some token)
  | None => false
  end = false ->
  step p (LoginOver username c tokens t)
  = {| sessions :=
         {| userSessions := delete username (userSessions (sessions p));
            clients_made := clients_made (sessions p) |};
       login_calls := login_calls p |}.
Proof.
  intros Hfalse. cbn [step]. destruct tokens as [[id token]|]; [|done].
  by rewrite Hfalse.
Qed.

(** X21. A login that fails, or whose response holds no identifier or no
    token, deletes the session of its principal, whatever it holds by
    then, even the authenticated session that another request stored in
    the meantime. The next request of the principal gets a client made
    anew and calls [attemptLogin] with it. *)
Theorem failed_login_discards_the_session
    (p : Process) (username : string) (c : nat)
    (tokens : option (string * string)) (t t' : Z) :
  match tokens with
  | Some (id, token) =>
      Login.truthy (Some id) && Login.truthy (Some token)
  | None => false
  end = false ->
  userSessions (sessions (step p (LoginOver username c tokens t))) !! username
  = None
  /\ login_calls (run [LoginOver username c tokens t; Arrive username t'] p)
     = login_calls p ++ [(username, clients_made (sessions p))]
  /\ userSessions
       (sessions (run [LoginOver username c tokens t; Arrive username t'] p))
     !! username
     = Some {| client := clients_made (sessions p); studentId := None;
               csrf := None; lastUsed := t' |}.
Proof.
  intros Hfalse. unfold run. cbn [foldl].
  rewrite (login_over_without_tokens p username c tokens t Hfalse).
  cbn [sessions userSessions]. rewrite lookup_delete_eq. split; [done|].
  cbn [step sessions login_calls]. unfold getUserClient.
  cbn [userSessions]. rewrite lookup_delete_eq.
  cbn [store_new_client userSessions clients_made].
  rewrite lookup_insert_eq. cbn [authenticated studentId Login.truthy andb].
  cbn [sessions login_calls userSessions]. by rewrite lookup_insert_eq.
Qed.

(** X21 on a login that fails after another request of the principal
    logged in. *)
Lemma failed_login_witness :
  let p := run [LoginOver "stu1" 0 (Some ("id1", "tok")) 10] start in
  userSessions (sessions (step p (LoginOver "stu1" 0 None 20))) !! "stu1"
  = None
  /\ login_calls (run [LoginOver "stu1" 0 None 20; Arrive "stu1" 30] p)
     = login_calls p ++ [("stu1", clients_made (sessions p))]
  /\ userSessions
       (sessions (run [LoginOver "stu1" 0 None 20; Arrive "stu1" 30] p))
     !! "stu1"
     = Some {| client := clients_made (sessions p); studentId := None;
               csrf := None; lastUsed := 30 |}.
Proof.
  intros p.
  apply (failed_login_discards_the_session p "stu1" 0 None 20 30).
  reflexivity.
Defined.

(** X22. A request that finds an authenticated session last used the
    timeout ago, or longer, does not use it: it gets a client made anew
    and calls [attemptLogin] with it. *)
Theorem expired_session_logs_in_again
    (p : Process) (username : string) (old : Session) (now : Z) :
  userSessions (sessions p) !! username = Some old ->
  SESSION_TIMEOUT <= now - lastUsed old ->
  login_calls (step p (Arrive username now))
  = login_calls p ++ [(username, clients_made (sessions p))]
  /\ logins_for username (step p (Arrive username now))
     = S (logins_for username p).
Proof.
  intros Hold Hnow. cbn [step].
  destruct (getUserClient_fresh username now (sessions p)) as (Hc & _ & Hs).
  { intros old' Hold'. rewrite Hold in Hold'. by injection Hold' as <-. }
  destruct (getUserClient username now (sessions p)) as [c st].
  cbn [fst snd] in Hc, Hs. rewrite Hs, Hc.
  cbn [authenticated studentId Login.truthy andb login_calls].
  split; [done|]. destruct p as [reg calls]. apply logins_for_app.
Qed.

(** X22 on an authenticated session, one timeout later. *)
Lemma expired_login_witness :
  let p := run [LoginOver "stu1" 0 (Some ("id1", "tok")) 0] start in
  login_calls (step p (Arrive "stu1" 300000))
  = login_calls p ++ [("stu1", clients_made (sessions p))]
  /\ logins_for "stu1" (step p (Arrive "stu1" 300000))
     = S (logins_for "stu1" p).
Proof.
  intros p.
  apply (expired_session_logs_in_again p "stu1"
    {| client := 0%nat; studentId := Some "id1"; csrf := Some "tok";
       lastUsed := 0 |} 300000).
  - reflexivity.
  - cbn [lastUsed]. unfold SESSION_TIMEOUT. lia.
Defined.

Lemma step_other (p : Process) (s : Step) (username : string) :
  match s with
  | Arrive u _ | LoginOver u _ _ _ => u <> username
  end ->
  userSessions (sessions (step p s)) !! username
  = userSessions (sessions p) !! username
  /\ logins_for username (step p s) = logins_for username p.
Proof.
  destruct s as [u now|u c tokens now]; intros Hne.
  - cbn [step].
    pose proof (getUserClient_other u username now (sessions p)
                  ltac:(congruence)) as Hother.
    destruct (getUserClient u now (sessions p)) as [c st]. cbn [snd] in Hother.
    destruct (authenticated (userSessions st !! u));
      cbn [sessions]; (split; [exact Hother|]); [done|].
    unfold logins_for. cbn [login_calls].
    rewrite filter_app, filter_cons_False by (cbn [fst]; congruence).
    by rewrite filter_nil, app_nil_r.
  - cbn [step]. destruct tokens as [[id token]|].
    + destruct (Login.truthy (Some id) && Login.truthy (Some token));
        cbn [sessions userSessions]; (split; [|done]).
      * by rewrite lookup_insert_ne.
      * by rewrite lookup_delete_ne.
    + cbn [sessions userSessions]. split; [|done]. by rewrite lookup_delete_ne.
Qed.

(** X23. The requests of other principals, and the logins they wait for,
    neither change the session of a principal nor call [attemptLogin] for
    it. *)
Theorem principals_do_not_interfere
    (p : Process) (steps : list Step) (username : string) :
  Forall (fun s => match s with
                   | Arrive u _ | LoginOver u _ _ _ => u <> username
                   end) steps ->
  userSessions (sessions (run steps p)) !! username
  = userSessions (sessions p) !! username
  /\ logins_for username (run steps p) = logins_for username p.
Proof.
  intros Hsteps. revert p. unfold run.
  induction Hsteps as [|s steps Hs _ IH]; intros p; [done|].
  cbn [foldl]. destruct (IH (step p s)) as [-> ->].
  by apply step_other.
Qed.

(** X23 on the requests of a second principal. *)
Lemma principals_witness :
  let p := run [LoginOver "stu1" 0 (Some ("id1", "tok")) 0] start in
  let steps := [Arrive "stu2" 1; LoginOver "stu2" 1 None 2; Arrive "stu2" 3] in
  userSessions (sessions (run steps p)) !! "stu1"
  = userSessions (sessions p) !! "stu1"
  /\ logins_for "stu1" (run steps p) = logins_for "stu1" p.
Proof.
  intros p steps.
  apply (principals_do_not_interfere p steps "stu1").
  repeat (apply Forall_cons; split; [discriminate|]). apply Forall_nil_2.
Defined.

End ServerMore.

(** ** The solver and its temporary file *)

Module TempFileMore.
Import LinearClassifier TempFile LoopFacts LinearMore.

Section WithModel.

Variable Math_exp : float -> float.
Variable weights : list (list float).
Variable biases : list float.
Variable decode : string -> option Image.
Variable drawn : Image -> nat -> nat -> list N.

Local Abbreviation classify_image :=
  (classify_image Math_exp weights biases drawn).
Local Abbreviation solveCaptchaFromFile :=
  (solveCaptchaFromFile Math_exp weights biases decode drawn).

(** What [solveCaptchaFromBase64] does once the payload is there. *)
Lemma solve_payload (files : Files) (base64String imageData : string) :
  split_comma_1 base64String = Some imageData ->
  TempFile.solveCaptchaFromBase64 Math_exp weights biases decode drawn
    files base64String
  = match img ← decode imageData; classify_image img with
    | Some out => (Some out, delete tempFilePath (<[tempFilePath := imageData]> files))
    | None => (None, <[tempFilePath := imageData]> files)
    end
  /\ LinearClassifier.solveCaptchaFromBase64 Math_exp weights biases decode
       drawn base64String
     = (img ← decode imageData; classify_image img).
Proof.
  intros Hsplit.
  unfold TempFile.solveCaptchaFromBase64,
    LinearClassifier.solveCaptchaFromBase64, loadImage.
  rewrite Hsplit, lookup_insert_eq, !bind_Some. done.
Qed.

Lemma solveCaptchaFromFile_content (files : Files) (path content : string) :
  files !! path = Some content ->
  solveCaptchaFromFile files path = (img ← decode content; classify_image img).
Proof.
  intros Hfile. unfold TempFile.solveCaptchaFromFile, loadImage.
  by rewrite Hfile, bind_Some.
Qed.

End WithModel.

(** X24. [solveCaptchaFromBase64] touches no other file than
    [./temp_captcha.jpg], and returns what the solver without files
    returns. When it returns a result, the file is gone. When it returns
    [null] after the payload was split off, the file is left behind and
    holds the payload, which [solveCaptchaFromFile] cannot solve either;
    when the string has no comma, nothing is written. *)
Theorem temp_file_is_left_behind_on_failure
    (Math_exp : float -> float) (weights : list (list float))
    (biases : list float) (decode : string -> option Image)
    (drawn : Image -> nat -> nat -> list N)
    (files : Files) (base64String : string) :
  let '(result, files') :=
    TempFile.solveCaptchaFromBase64 Math_exp weights biases decode drawn
      files base64String in
  result
  = LinearClassifier.solveCaptchaFromBase64 Math_exp weights biases decode
      drawn base64String
  /\ (forall path, path <> tempFilePath -> files' !! path = files !! path)
  /\ match result, split_comma_1 base64String with
     | Some _, _ => files' !! tempFilePath = None
     | None, Some imageData =>
         files' !! tempFilePath = Some imageData
         /\ solveCaptchaFromFile Math_exp weights biases decode drawn files'
              tempFilePath
            = None
     | None, None => files' = files
     end.
Proof.
  destruct (split_comma_1 base64String) as [imageData|] eqn:Hsplit.
  - destruct (solve_payload Math_exp weights biases decode drawn files
      base64String imageData Hsplit) as [-> ->].
    destruct (img ← decode imageData;
              classify_image Math_exp weights biases drawn img)
      as [out|] eqn:Hrun.
    + split; [done|]. split; [|apply lookup_delete_eq].
      intros path Hne. rewrite lookup_delete_ne by done.
      by rewrite lookup_insert_ne.
    + split; [done|]. split; [intros path Hne; by rewrite lookup_insert_ne|].
      split; [apply lookup_insert_eq|].
      rewrite (solveCaptchaFromFile_content _ _ _ _ _ _ _ imageData)
        by apply lookup_insert_eq.
      exact Hrun.
  - unfold TempFile.solveCaptchaFromBase64. rewrite Hsplit.
    split; [|done].
    symmetry. apply LinearFacts.solveCaptchaFromBase64_null. by left.
Qed.

(** X25. [solveCaptchaFromFile] on a file returns what
    [solveCaptchaFromBase64] returns on a string whose payload is the
    content of the file, whatever stands before the comma and whatever
    files there are. *)
Theorem file_and_payload_agree
    (Math_exp : float -> float) (weights : list (list float))
    (biases : list float) (decode : string -> option Image)
    (drawn : Image -> nat -> nat -> list N)
    (files files' : Files) (path pre payload : string) :
  files !! path = Some payload ->
  (forall n, String.get n pre <> Some ","%char) ->
  (forall n, String.get n payload <> Some ","%char) ->
  solveCaptchaFromFile Math_exp weights biases decode drawn files path
  = (TempFile.solveCaptchaFromBase64 Math_exp weights biases decode drawn
       files' (pre ++ String "," payload)).1.
Proof.
  intros Hfile Hpre Hpayload.
  rewrite (solveCaptchaFromFile_content _ _ _ _ _ _ _ payload) by done.
  destruct (solve_payload Math_exp weights biases decode drawn files'
    (pre ++ String "," payload) payload) as [-> _].
  { rewrite split_comma_after by done.
    by rewrite (proj1 (until_comma_stops payload "" Hpayload)). }
  by destruct (img ← decode payload;
               classify_image Math_exp weights biases drawn img).
Qed.

(** X25 on a file that holds the red picture of one pixel. *)
Lemma file_and_payload_witness :
  solveCaptchaFromFile exp_near_zero zero_weights zero_biases
    (fun _ => Some red_pixel_image) draw_uniform
    {[ "captcha.jpg" := "AAAA" ]} "captcha.jpg"
  = (TempFile.solveCaptchaFromBase64 exp_near_zero zero_weights zero_biases
       (fun _ => Some red_pixel_image) draw_uniform
       ∅ ("data:image/jpeg;base64" ++ String "," "AAAA")).1.
Proof.
  apply (file_and_payload_agree exp_near_zero zero_weights zero_biases
    (fun _ => Some red_pixel_image) draw_uniform
    {[ "captcha.jpg" := "AAAA" ]} ∅ "captcha.jpg"
    "data:image/jpeg;base64" "AAAA").
  - reflexivity.
  - intros n. do 23 (destruct n as [|n]; [discriminate|]). discriminate.
  - intros n. do 5 (destruct n as [|n]; [discriminate|]). discriminate.
Defined.

End TempFileMore.
